(** * PyInterfacer: the [Interface] aggregate

    A shallow embedding of [pyinterfacer/interface/interface.py]: the
    declarative-attribute resolver run on every component dictionary
    (style classes, percentage values, grid cells), the construction loop
    that fills the component list and the dispatch groups, background
    parsing, the per-frame [update]/[draw]/[handle] calls, bindings and
    the lookup operators.

    Python values are an inductive type, dictionaries loaded from the
    interface file are finite maps with string keys, exceptions are an
    explicit result type, and [float] is IEEE-754 binary64 as specified by
    the standard library's [SpecFloat]. *)

From Stdlib Require Import ZArith String Ascii List Lia Bool Zpower.
From Stdlib Require Import SpecFloat.
From stdpp Require Import base option list gmap strings fin_maps.

Set Warnings "-register-all,-clear-no-such-hyp".
Local Open Scope Z_scope.
Local Open Scope string_scope.
Local Open Scope list_scope.

(** ** Python values and exceptions *)

Module Py.

(** The values an interface file can put into a component dictionary.
    YAML floats and nested mappings are outside this universe. *)
Inductive pyval :=
| VNone
| VBool (b : bool)
| VInt (z : Z)
| VStr (s : string)
| VList (l : list pyval)
| VTuple (l : list pyval).

Inductive exn :=
| TypeError
| ValueError
| KeyError
| IndexError
| AttributeError
| ZeroDivisionError
| OverflowError
| UnboundLocalError
| UndefinedComponentType
| ExternalError.

Inductive result (A : Type) :=
| Ok (a : A)
| Err (e : exn).
Arguments Ok {A} a.
Arguments Err {A} e.

Definition rbind {A B} (r : result A) (k : A -> result B) : result B :=
  match r with
  | Ok a => k a
  | Err e => Err e
  end.

Definition list_eqb {A} (f : A -> A -> bool) : list A -> list A -> bool :=
  fix go (l1 l2 : list A) {struct l1} : bool :=
    match l1, l2 with
    | [], [] => true
    | x :: l1', y :: l2' => f x y && go l1' l2'
    | _, _ => false
    end.

(** Python's [==] on this universe; [bool] is a subtype of [int]. *)
Fixpoint py_eqb (a b : pyval) {struct a} : bool :=
  match a, b with
  | VNone, VNone => true
  | VBool x, VBool y => Bool.eqb x y
  | VBool x, VInt y => Z.eqb (Z.b2z x) y
  | VInt x, VBool y => Z.eqb x (Z.b2z y)
  | VInt x, VInt y => Z.eqb x y
  | VStr x, VStr y => String.eqb x y
  | VList x, VList y => list_eqb py_eqb x y
  | VTuple x, VTuple y => list_eqb py_eqb x y
  | _, _ => false
  end.

(** Hashability, which [x in d] asks of [x]: a list is not hashable, a
    tuple is when its elements are. *)
Fixpoint hashable (v : pyval) : bool :=
  match v with
  | VList _ => false
  | VTuple l => forallb hashable l
  | _ => true
  end.

(** [c in s] for a one-character [c]. *)
Fixpoint str_contains (c : ascii) (s : string) : bool :=
  match s with
  | EmptyString => false
  | String a s' => Ascii.eqb a c || str_contains c s'
  end.

(** The characters of a string, as iterating over it yields them. *)
Fixpoint str_chars (s : string) : list pyval :=
  match s with
  | EmptyString => []
  | String a s' => VStr (String a EmptyString) :: str_chars s'
  end.

(** [str.lower], on ASCII letters. *)
Definition ascii_lower (a : ascii) : ascii :=
  let n := nat_of_ascii a in
  if ((65 <=? n)%nat && (n <=? 90)%nat)%bool then ascii_of_nat (n + 32) else a.

Fixpoint str_lower (s : string) : string :=
  match s with
  | EmptyString => EmptyString
  | String a s' => String (ascii_lower a) (str_lower s')
  end.

(** An operand of [//], [%] and [*] that has to be an [int]. *)
Definition int_operand (v : pyval) : result Z :=
  match v with
  | VInt z => Ok z
  | VBool b => Ok (Z.b2z b)
  | _ => Err TypeError
  end.

(** An [Optional[int]] attribute used in arithmetic. *)
Definition require_int (o : option Z) : result Z :=
  match o with
  | Some z => Ok z
  | None => Err TypeError
  end.

(** [a // b] and [a % b]: floor division, the remainder has the sign of
    the divisor, as [Z.div] and [Z.modulo] have it. *)
Definition py_floordiv (a b : Z) : result Z :=
  if Z.eqb b 0 then Err ZeroDivisionError else Ok (a / b).

Definition py_mod (a b : Z) : result Z :=
  if Z.eqb b 0 then Err ZeroDivisionError else Ok (a mod b).

End Py.
Export Py.

Notation "x <- r ;; k" := (rbind r (fun x => k))
  (at level 100, r at next level, right associativity, only parsing).

(** ** Binary64 arithmetic as Python performs it *)

Module PyFloat.

Definition prec : Z := 53.
Definition emax : Z := 1024.

Abbreviation float := spec_float.

(** A result too large for a float is reported by the integer operations
    as [OverflowError]. *)
Definition finite_or_overflow (f : float) : result float :=
  match f with
  | S754_infinity _ => Err OverflowError
  | _ => Ok f
  end.

(** [float(z)] for an [int]: round to nearest, ties to even. *)
Definition float_of_int (z : Z) : result float :=
  finite_or_overflow (binary_normalize prec emax z 0 false).

(** [a / b] on two [int]s: the correctly rounded quotient. *)
Definition int_truediv (a b : Z) : result float :=
  match b, a with
  | 0, _ => Err ZeroDivisionError
  | _, 0 => Ok (S754_zero (Z.ltb b 0))
  | _, _ =>
      let '(mz, ez, lz) :=
        SFdiv_core_binary prec emax (Z.abs a) 0 (Z.abs b) 0 in
      finite_or_overflow
        (binary_round_aux prec emax (xorb (Z.ltb a 0) (Z.ltb b 0)) mz ez lz)
  end.

(** [z * f] and [z + f] with [z] an [int]: the [int] is converted first. *)
Definition int_mul_float (z : Z) (f : float) : result float :=
  fz <- float_of_int z ;; Ok (SFmul prec emax fz f).

Definition int_add_float (z : Z) (f : float) : result float :=
  fz <- float_of_int z ;; Ok (SFadd prec emax fz f).

(** [int(f)]: truncation toward zero. *)
Definition int_of_float (f : float) : result Z :=
  match f with
  | S754_zero _ => Ok 0
  | S754_infinity _ => Err OverflowError
  | S754_nan => Err ValueError
  | S754_finite s m e =>
      Ok (cond_Zopp s
            (match e with
             | Zneg p => Z.shiftr (Zpos m) (Zpos p)
             | _ => Z.shiftl (Zpos m) e
             end))
  end.

End PyFloat.
Export PyFloat.

(** ** The attribute resolver

    The three passes [_parse_components] runs on every component
    dictionary.  Python mutates the dictionary in place; here each pass
    returns the updated dictionary, or the exception it raised. *)

Abbreviation dict := (gmap string pyval).

(** [pyinterfacer.util], of which the interface module uses
    [percent_to_float] only; the module is not part of the sources at hand,
    so the function is a parameter of the resolver. *)
Class Util := {
  percent_to_float : string -> result float
}.

Module Resolver.

(** *** Style classes *)

(** [for attr, value in cls.items(): if attr not in component:
    component[attr] = value] *)
Definition apply_class (cls : dict) (component : dict) : dict :=
  map_fold
    (fun attr value (c : dict) =>
       match c !! attr with
       | Some _ => c
       | None => <[attr := value]> c
       end)
    component cls.

(** [style in self._style_classes] for one element of the style list:
    a list is not hashable, anything but a string is no key of the map. *)
Definition find_class (classes : gmap string dict) (style : pyval)
  : result (option dict) :=
  match style with
  | VStr s => Ok (classes !! s)
  | _ => if hashable style then Ok None else Err TypeError
  end.

Fixpoint apply_classes (classes : gmap string dict) (styles : list pyval)
    (component : dict) : result dict :=
  match styles with
  | [] => Ok component
  | style :: rest =>
      found <- find_class classes style ;;
      apply_classes classes rest
        (match found with
         | Some cls => apply_class cls component
         | None => component
         end)
  end.

(** What [len(v)] and [for style in v] see of the style value. *)
Definition style_items (v : pyval) : result (list pyval) :=
  match v with
  | VStr s => Ok (str_chars s)
  | VList l => Ok l
  | VTuple l => Ok l
  | _ => Err TypeError
  end.

(** [type(s) is str and s in self._style_classes]: the single known
    class the style value names, if it does. *)
Definition single_class (classes : gmap string dict) (s : pyval)
  : option dict :=
  match s with
  | VStr n => classes !! n
  | _ => None
  end.

Definition parse_style_classes (style_classes : option (gmap string dict))
    (component : dict) : result dict :=
  match component !! "style", style_classes with
  | Some s, Some classes =>
      match single_class classes s with
      | Some cls => Ok (apply_class cls component)
      | None =>
          items <- style_items s ;;
          match items with
          | [] => Ok component
          | _ => apply_classes classes items component
          end
      end
  | _, _ => Ok component
  end.

(** *** Percentage values *)

Section Percentage.
Context {U : Util}.

(** [int(base * percent_to_float(s))]; the call is evaluated before the
    product, and a [None] base cannot be multiplied. *)
Definition percent_of (base : option Z) (s : string) : result Z :=
  p <- percent_to_float s ;;
  b <- require_int base ;;
  f <- int_mul_float b p ;;
  int_of_float f.

(** One of the four [if key in component and type(...) is str] blocks. *)
Definition resolve_percent (key : string) (base : option Z)
    (component : dict) : result dict :=
  match component !! key with
  | Some (VStr s) =>
      if str_contains "%" s
      then v <- percent_of base s ;; Ok (<[key := VInt v]> component)
      else Ok component
  | _ => Ok component
  end.

Definition parse_percentage_values (size : Z * Z) (component : dict)
    (gw gh : option Z) : result dict :=
  let width :=
    match component !! "grid_cell" with Some _ => gw | None => Some (fst size) end in
  let height :=
    match component !! "grid_cell" with Some _ => gh | None => Some (snd size) end in
  c <- resolve_percent "width" width component ;;
  c <- resolve_percent "height" height c ;;
  c <- resolve_percent "x" width c ;;
  resolve_percent "y" height c.

End Percentage.

(** *** Grid cells *)

(** [int((index * cell) + (cell / 2))] *)
Definition cell_center (index cell : Z) : result Z :=
  half <- int_truediv cell 2 ;;
  f <- int_add_float (index * cell) half ;;
  int_of_float f.

(** The [if key not in component ... elif component[key] == "auto"]
    block for [width] and for [height]. *)
Definition default_size (key : string) (cell : Z) (component : dict) : dict :=
  match component !! key with
  | None => <[key := VInt cell]> component
  | Some v =>
      if py_eqb v (VStr "auto") then <[key := VNone]> component else component
  end.

Definition parse_grid_values (display : string) (component : dict)
    (gw gh columns : option Z) : result dict :=
  if negb (String.eqb display "grid") then Ok component
  else
    match component !! "grid_cell" with
    | None => Ok component
    | Some cell =>
        index <- int_operand cell ;;
        cols <- require_int columns ;;
        row <- py_floordiv index cols ;;
        column <- py_mod index cols ;;
        w <- require_int gw ;;
        x <- cell_center column w ;;
        h <- require_int gh ;;
        y <- cell_center row h ;;
        Ok (default_size "height" h
              (default_size "width" w
                 (<["y" := VInt y]> (<["x" := VInt x]> component))))
    end.

End Resolver.
Export Resolver.

(** ** Components, groups and the conversion tables *)

(** [subtype] of a component: a member of [DefaultComponentTypes], whose
    [value] is the string the group table is keyed by, any other string,
    or [None]. *)
Inductive Subtype :=
| DefaultComponentType (value : string)
| CustomSubtype (s : string)
| NoSubtype.

Definition subtype_key (s : Subtype) : option string :=
  match s with
  | DefaultComponentType value => Some value
  | CustomSubtype s => Some s
  | NoSubtype => None
  end.

(** Modelled from the spec: the component classes, missing from the
    sources.  A component has an [id], a declared [type] and a [subtype],
    which are the attributes the interface reads, and belongs to one
    interface.  [c_obj] is the identity of the Python object (sprite
    groups hold their members by identity); [c_kwargs] are the keyword
    arguments it was built from. *)
Record Component := {
  c_obj : nat;
  c_id : string;
  c_type : string;
  c_subtype : Subtype;
  c_interface : string;
  c_kwargs : dict
}.

(** A component class registered in the conversion table: the subtype its
    instances carry and the keyword arguments its constructor refuses. *)
Record ComponentClass := {
  cc_subtype : Subtype;
  cc_rejects : dict -> option exn
}.

(** A group class, by the dispatch capabilities [isinstance] tests for. *)
Record GroupClass := {
  gc_clickable : bool;
  gc_hoverable : bool;
  gc_input : bool
}.

Definition ComponentGroup : GroupClass :=
  {| gc_clickable := false; gc_hoverable := false; gc_input := false |}.

(** A sprite group: its class and its members, in insertion order. *)
Record Group := {
  g_class : GroupClass;
  g_members : list nat
}.

(** [pyinterfacer.interface._conversion._ConversionMapping]: the two
    process-wide tables.  The module is not part of the sources at hand. *)
Class ConversionMapping := {
  COMPONENT_CONVERSION_TABLE : gmap string ComponentClass;
  GROUP_CONVERSION_TABLE : gmap string GroupClass
}.

(** Modelled from the spec: [_ConversionMapping.convert_component] and the
    component constructors, which are missing from the sources.  The type
    string selects the registered constructor and an unregistered type is
    an error; the new component keeps the [id] and [type] it is declared
    with (both strings) and names its owning interface.  Passing [type_] or [interface]
    twice is Python's own [TypeError]. *)
Definition convert_component {CM : ConversionMapping} (obj : nat)
    (type_ : string) (interface : string) (kwargs : dict) : result Component :=
  match kwargs !! "type_", kwargs !! "interface" with
  | None, None =>
      match COMPONENT_CONVERSION_TABLE !! type_ with
      | None => Err UndefinedComponentType
      | Some cls =>
          match cc_rejects cls kwargs with
          | Some e => Err e
          | None =>
              match kwargs !! "id", kwargs !! "type" with
              | Some (VStr id), Some (VStr ty) =>
                  Ok {| c_obj := obj; c_id := id; c_type := ty;
                        c_subtype := cc_subtype cls;
                        c_interface := interface; c_kwargs := kwargs |}
              | _, _ => Err TypeError
              end
          end
      end
  | _, _ => Err TypeError
  end.

(** [pygame.sprite.Group.add]: a sprite already in the group is not
    added again. *)
Definition group_add (obj : nat) (g : Group) : Group :=
  {| g_class := g_class g;
     g_members := if decide (obj ∈ g_members g) then g_members g
                  else (g_members g ++ [obj])%list |}.

(** A Python [dict] whose iteration order matters: an association list
    in insertion order. *)
Fixpoint odict_get {V} (k : string) (d : list (string * V)) : option V :=
  match d with
  | [] => None
  | (k', v) :: d' => if String.eqb k' k then Some v else odict_get k d'
  end.

Fixpoint odict_set {V} (k : string) (v : V) (d : list (string * V))
  : list (string * V) :=
  match d with
  | [] => [(k, v)]
  | (k', v') :: d' =>
      if String.eqb k' k then (k', v) :: d' else (k', v') :: odict_set k v d'
  end.

(** ** Bindings *)

(** What [create_binding] is handed: any Python object, of which the
    function asks [isinstance(_, _HandledComponent)] and [callable(_)]. *)
Record PyObject := {
  obj_ref : nat;
  obj_handled_component : bool;
  obj_callable : bool
}.

Inductive Binding :=
| ComponentBinding (source : PyObject * string) (target : PyObject * string)
| CallbackBinding (source : PyObject * string) (callback : PyObject)
| ConditionBinding (condition callback : PyObject) (keep : bool).

(** Modelled from the spec: [_BindingManager], missing from the sources.
    It keeps the registered bindings in registration order and
    [register(binding) -> id] hands out an id no other binding has. *)
Record BindingManager := {
  bm_bindings : list (nat * Binding);
  bm_next : nat
}.

(** Modelled from the spec: [register(binding) -> id]. *)
Definition bm_register (b : Binding) (m : BindingManager) : nat * BindingManager :=
  (bm_next m,
   {| bm_bindings := (bm_bindings m ++ [(bm_next m, b)])%list;
      bm_next := S (bm_next m) |}).

(** Modelled from the spec: [unregister(id)], a no-op for an unknown id. *)
Definition bm_unregister (id : nat) (m : BindingManager) : BindingManager :=
  {| bm_bindings := filter (fun p => fst p ≠ id) (bm_bindings m);
     bm_next := bm_next m |}.

(** ** The interface *)

(** [pygame.Surface], as far as the interface looks at it. *)
Record Surface := {
  surface_ref : nat;
  get_size : Z * Z
}.

Abbreviation Color := (Z * Z * Z * Z)%type.

(** The calls into pygame made by background parsing:
    [pygame.image.load(os.path.abspath(bg)).convert()],
    [pygame.transform.scale] and [pygame.Color]. *)
Class Pygame := {
  image_load : pyval -> result Surface;
  transform_scale : Surface -> Z * Z -> result Surface;
  pygame_Color : pyval -> result Color
}.

Record Interface := {
  name : string;
  display : string;
  rows : option Z;
  columns : option Z;
  parent : option string;
  size : Z * Z;
  _bindings : BindingManager;
  _bg_color : Color;
  _bg_image : option Surface;
  _group : list nat;
  _subgroups : list nat;
  _component_type_groups : list (string * Group);
  _components : list Component;
  _style_classes : option (gmap string dict)
}.

Definition set_background (color : Color) (image : option Surface)
    (i : Interface) : Interface :=
  {| name := name i; display := display i; rows := rows i;
     columns := columns i; parent := parent i; size := size i;
     _bindings := _bindings i; _bg_color := color; _bg_image := image;
     _group := _group i; _subgroups := _subgroups i;
     _component_type_groups := _component_type_groups i;
     _components := _components i; _style_classes := _style_classes i |}.

Definition set_bindings (m : BindingManager) (i : Interface) : Interface :=
  {| name := name i; display := display i; rows := rows i;
     columns := columns i; parent := parent i; size := size i;
     _bindings := m; _bg_color := _bg_color i; _bg_image := _bg_image i;
     _group := _group i; _subgroups := _subgroups i;
     _component_type_groups := _component_type_groups i;
     _components := _components i; _style_classes := _style_classes i |}.

Definition set_components (group : list nat)
    (type_groups : list (string * Group)) (components : list Component)
    (i : Interface) : Interface :=
  {| name := name i; display := display i; rows := rows i;
     columns := columns i; parent := parent i; size := size i;
     _bindings := _bindings i; _bg_color := _bg_color i;
     _bg_image := _bg_image i;
     _group := group; _subgroups := _subgroups i;
     _component_type_groups := type_groups;
     _components := components; _style_classes := _style_classes i |}.

Definition set_subgroups (subgroups : list nat) (i : Interface) : Interface :=
  {| name := name i; display := display i; rows := rows i;
     columns := columns i; parent := parent i; size := size i;
     _bindings := _bindings i; _bg_color := _bg_color i;
     _bg_image := _bg_image i;
     _group := _group i; _subgroups := subgroups;
     _component_type_groups := _component_type_groups i;
     _components := _components i; _style_classes := _style_classes i |}.

(** *** Background *)

Section Background.
Context {P : Pygame}.

(** The body of the [try]: load, convert, scale to the interface size. *)
Definition load_background (bg : pyval) (size : Z * Z) : result Surface :=
  img <- image_load bg ;;
  if decide (size = get_size img) then Ok img else transform_scale img size.

Definition _parse_background (bg : pyval) (i : Interface) : result Interface :=
  match load_background bg (size i) with
  | Ok img => Ok (set_background (_bg_color i) (Some img) i)
  | Err _ =>
      match bg with
      | VNone => Ok i
      | _ =>
          color <- pygame_Color bg ;;
          Ok (set_background color (_bg_image i) i)
      end
  end.

(** The [background] property: its getter and its setter. *)
Definition background (i : Interface) : Surface + Color :=
  match _bg_image i with
  | Some img => inl img
  | None => inr (_bg_color i)
  end.

Definition background_setter (bg : pyval) (i : Interface) : result Interface :=
  _parse_background bg i.

End Background.

(** *** Parsing the components *)

Section Components.
Context {U : Util} {CM : ConversionMapping}.

(** [__handle_new_type_group]: the group class registered for the type,
    else the one registered for the subtype, else [ComponentGroup]. *)
Definition new_type_group (c : Component) : Group :=
  {| g_class :=
       match GROUP_CONVERSION_TABLE !! c_type c with
       | Some cls => cls
       | None =>
           match subtype_key (c_subtype c) ≫= (fun k => GROUP_CONVERSION_TABLE !! k) with
           | Some cls => cls
           | None => ComponentGroup
           end
       end;
     g_members := [] |}.

(** The tail of the loop body: append the component, make sure its type
    has a group, add it to that group and to the main group. *)
Definition register_component (c : Component) (i : Interface) : result Interface :=
  let components := (_components i ++ [c])%list in
  let groups :=
    match odict_get (c_type c) (_component_type_groups i) with
    | Some _ => _component_type_groups i
    | None => odict_set (c_type c) (new_type_group c) (_component_type_groups i)
    end in
  match odict_get (c_type c) groups with
  | None => Err KeyError
  | Some g =>
      Ok (set_components
            (if decide (c_obj c ∈ _group i) then _group i else (_group i ++ [c_obj c])%list)
            (odict_set (c_type c) (group_add (c_obj c) g) groups)
            components i)
  end.

(** [component.get(key)] *)
Definition dict_get (component : dict) (key : string) : pyval :=
  default VNone (component !! key).

(** What the loop makes of the dictionary before it is handed to the
    constructor: the three resolver passes, the sentinel id, [pos] and
    [size]. *)
Definition resolve_component (i : Interface) (gw gh : option Z)
    (component : dict) : result dict :=
  c <- parse_style_classes (_style_classes i) component ;;
  c <- parse_percentage_values (size i) c gw gh ;;
  c <- parse_grid_values (display i) c gw gh (columns i) ;;
  let c := match c !! "id" with Some _ => c | None => <["id" := VStr "_"]> c end in
  let c := <["pos" := VTuple [dict_get c "x"; dict_get c "y"]]> c in
  Ok (<["size" := VTuple [dict_get c "width"; dict_get c "height"]]> c).

(** [component["type"].lower()] *)
Definition declared_type (component : dict) : result string :=
  match component !! "type" with
  | None => Err KeyError
  | Some (VStr t) => Ok (str_lower t)
  | Some _ => Err AttributeError
  end.

(** The body of the loop.  The constructor returns a new object: its
    identity is the number of components built before it. *)
Definition parse_component (gw gh : option Z) (i : Interface)
    (component : dict) : result Interface :=
  kwargs <- resolve_component i gw gh component ;;
  type_ <- declared_type kwargs ;;
  c <- convert_component (length (_components i)) type_ (name i) kwargs ;;
  register_component c i.

(** The size of a grid cell, or [None] twice when the display is no grid. *)
Definition grid_cell_size (i : Interface) : result (option Z * option Z) :=
  if String.eqb (display i) "grid" then
    cols <- require_int (columns i) ;;
    grid_width <- py_floordiv (fst (size i)) cols ;;
    rws <- require_int (rows i) ;;
    grid_height <- py_floordiv (snd (size i)) rws ;;
    Ok (Some grid_width, Some grid_height)
  else Ok (None, None).

Fixpoint parse_each (gw gh : option Z) (components : list dict)
    (i : Interface) : result Interface :=
  match components with
  | [] => Ok i
  | component :: rest =>
      i' <- parse_component gw gh i component ;;
      parse_each gw gh rest i'
  end.

Definition _parse_components (components : list dict) (i : Interface)
  : result Interface :=
  cell <- grid_cell_size i ;;
  parse_each (fst cell) (snd cell) components i.

End Components.

(** *** Construction *)

Section Construction.
Context {U : Util} {CM : ConversionMapping} {P : Pygame}.

(** [Interface.__init__] *)
Definition init (name : string) (background : pyval) (size : Z * Z)
    (components : list dict) (display : string) (rows columns : option Z)
    (parent : option string) (styles : option (gmap string dict))
  : result Interface :=
  let self :=
    {| name := name; display := display; rows := rows; columns := columns;
       parent := parent; size := size;
       _bindings := {| bm_bindings := []; bm_next := 0 |};
       _bg_color := (0, 0, 0, 0); _bg_image := None;
       _group := []; _subgroups := []; _component_type_groups := [];
       _components := []; _style_classes := styles |} in
  self <- _parse_background background self ;;
  _parse_components components self.

End Construction.

(** *** Lookups *)

(** [{c.id: c for c in self._components if c.id != "_"}] *)
Definition component_mapping (i : Interface) : gmap string Component :=
  foldl
    (fun (m : gmap string Component) c =>
       if negb (String.eqb (c_id c) "_") then <[c_id c := c]> m else m)
    ∅ (_components i).

Definition get_type_group (type_ : string) (i : Interface) : option Group :=
  odict_get type_ (_component_type_groups i).

Definition add_subgroup (group : nat) (i : Interface) : Interface :=
  if decide (group ∈ _subgroups i) then i
  else set_subgroups (_subgroups i ++ [group])%list i.

(** [==] between a component and the key handed to [__getitem__], as the
    component classes define it. *)
Class ComponentEq := {
  component_eq : Component -> pyval -> bool
}.

(** [list.index]: the position of the first element equal to the key,
    [ValueError] when there is none. *)
Fixpoint list_index {A} (eq : A -> bool) (l : list A) : result Z :=
  match l with
  | [] => Err ValueError
  | x :: rest =>
      if eq x then Ok 0 else idx <- list_index eq rest ;; Ok (1 + idx)
  end.

(** [Interface.__getitem__]; [Ok None] is the [return None]. *)
Definition getitem {E : ComponentEq} (component : pyval) (i : Interface)
  : result (option Component) :=
  idx <- list_index (fun c => component_eq c component) (_components i) ;;
  if negb (Z.eqb idx (-1)) then
    match _components i !! Z.to_nat idx with
    | Some c => Ok (Some c)
    | None => Err IndexError
    end
  else Ok None.

(** *** Bindings *)

(** [create_binding].  The local [b] is bound by one of the two branches
    or not at all; reading it unbound is [UnboundLocalError].  The state
    is returned next to the outcome, since a raised exception does not
    undo what was done before it. *)
Definition create_binding (c1 : PyObject) (a1 : string) (c2 : PyObject)
    (a2 : option string) (i : Interface) : result nat * Interface :=
  let b :=
    match obj_handled_component c2, a2 with
    | true, Some a2 => Some (ComponentBinding (c1, a1) (c2, a2))
    | _, _ =>
        if obj_callable c2 then Some (CallbackBinding (c1, a1) c2) else None
    end in
  match b with
  | None => (Err UnboundLocalError, i)
  | Some b =>
      let '(id, m) := bm_register b (_bindings i) in
      (Ok id, set_bindings m i)
  end.

Definition when (condition callback : PyObject) (keep : bool)
    (i : Interface) : nat * Interface :=
  let '(id, m) := bm_register (ConditionBinding condition callback keep) (_bindings i) in
  (id, set_bindings m i).

Definition unbind (id : nat) (i : Interface) : Interface :=
  set_bindings (bm_unregister id (_bindings i)) i.

(** ** The frame: update, hover, draw

    The groups, the binding manager, the overlay managers and the surface
    are collaborators; a call into one of them is recorded as an event,
    and may raise. *)

Inductive event :=
| GroupUpdate (dt : float)
| SubgroupUpdate (group : nat) (dt : float)
| BindingsHandle
| OverlayUpdate (dt : float)
| HandleHover (type : string) (interfaces : list string)
| Blit (surface : nat) (image : Surface)
| Fill (surface : nat) (color : Color)
| UnderlayerRender (surface : nat)
| GroupDraw (surface : nat)
| SubgroupDraw (group : nat) (surface : nat)
| OverlayRender (surface : nat).

(** Whether a collaborator raises on a call, given the calls made before. *)
Class Collaborators := {
  raises : list event -> event -> bool
}.

(** A computation that appends to the log of calls and may raise. *)
Definition Frame (A : Type) : Type := list event -> list event * result A.

Definition fret {A} (a : A) : Frame A := fun log => (log, Ok a).

Definition fbind {A B} (m : Frame A) (k : A -> Frame B) : Frame B :=
  fun log =>
    match m log with
    | (log', Ok a) => k a log'
    | (log', Err e) => (log', Err e)
    end.

Notation "m ;;; k" := (fbind m (fun _ => k))
  (at level 100, right associativity, only parsing).

Section Frames.
Context {C : Collaborators}.

Definition call (ev : event) : Frame unit :=
  fun log =>
    ((log ++ [ev])%list, if raises log ev then Err ExternalError else Ok tt).

Fixpoint for_each {A} (f : A -> Frame unit) (l : list A) : Frame unit :=
  match l with
  | [] => fret tt
  | x :: rest => f x ;;; for_each f rest
  end.

Definition update (i : Interface) (dt : float) : Frame unit :=
  call (GroupUpdate dt) ;;;
  (if (0 <? length (_subgroups i))%nat
   then for_each (fun g => call (SubgroupUpdate g dt)) (_subgroups i)
   else fret tt) ;;;
  call BindingsHandle ;;;
  call (OverlayUpdate dt).

Definition draw (i : Interface) (surface : nat) : Frame unit :=
  (match _bg_image i with
   | Some img => call (Blit surface img)
   | None =>
       if negb (String.eqb (display i) "overlay")
       then call (Fill surface (_bg_color i))
       else fret tt
   end) ;;;
  call (UnderlayerRender surface) ;;;
  call (GroupDraw surface) ;;;
  (if (0 <? length (_subgroups i))%nat
   then for_each (fun g => call (SubgroupDraw g surface)) (_subgroups i)
   else fret tt) ;;;
  call (OverlayRender surface).

Definition handle_hover (i : Interface) : Frame unit :=
  for_each
    (fun tg : string * Group =>
       if gc_hoverable (g_class (snd tg))
       then call (HandleHover (fst tg) [name i])
       else fret tt)
    (_component_type_groups i).


End Frames.

(** ** A concrete environment

    Used to run the model on examples. *)

Definition digit_of (a : ascii) : option Z :=
  let n := nat_of_ascii a in
  if ((48 <=? n)%nat && (n <=? 57)%nat)%bool
  then Some (Z.of_nat (n - 48)) else None.

(** The number written before the final percent sign. *)
Fixpoint read_percentage (s : string) (acc : option Z) : option Z :=
  match s with
  | EmptyString => None
  | String c rest =>
      if Ascii.eqb c "%" then
        match rest with EmptyString => acc | _ => None end
      else
        match digit_of c with
        | Some d => read_percentage rest (Some (10 * default 0 acc + d))
        | None => None
        end
  end.

(** Modelled from the spec: [util.percent_to_float], missing from the
    sources.  The resolver's formula is [base_dimension * percentage/100],
    so the function maps the string for [percentage] to the float
    [percentage/100]; a string that is no whole percentage is a
    [ValueError]. *)
Definition percent_to_float_model (s : string) : result float :=
  match read_percentage s None with
  | Some n => int_truediv n 100
  | None => Err ValueError
  end.

Definition util_model : Util :=
  {| percent_to_float := percent_to_float_model |}.

(** A pygame in which one image file exists and three colour names are
    known. *)
Definition pygame_model : Pygame :=
  {| image_load := fun bg =>
       match bg with
       | VStr "bg.png" => Ok {| surface_ref := 1; get_size := (640, 480) |}
       | VStr _ => Err ExternalError
       | _ => Err TypeError
       end;
     transform_scale := fun img size =>
       Ok {| surface_ref := S (surface_ref img); get_size := size |};
     pygame_Color := fun v =>
       match v with
       | VStr "black" => Ok (0, 0, 0, 255)
       | VStr "red" => Ok (255, 0, 0, 255)
       | VStr "white" => Ok (255, 255, 255, 255)
       | _ => Err ValueError
       end |}.

(** Conversion tables with two component types; buttons are dispatched
    through a group that is both clickable and hoverable. *)
Definition conversion_model : ConversionMapping :=
  {| COMPONENT_CONVERSION_TABLE :=
       <["text" := {| cc_subtype := DefaultComponentType "text";
                      cc_rejects := fun _ => None |}]>
         (<["button" := {| cc_subtype := DefaultComponentType "button";
                           cc_rejects := fun _ => None |}]> ∅);
     GROUP_CONVERSION_TABLE :=
       <["button" := {| gc_clickable := true; gc_hoverable := true;
                        gc_input := false |}]> ∅ |}.

Definition never_raises : Collaborators :=
  {| raises := fun _ _ => false |}.

(** * Specification-side notions *)

(** ** Style classes *)

(** The value a list of class names gives to [attr]: that of the first
    listed class that is known and declares it. *)
Fixpoint class_value (classes : gmap string dict) (names : list string)
    (attr : string) : option pyval :=
  match names with
  | [] => None
  | n :: rest =>
      match classes !! n ≫= (fun cls : dict => cls !! attr) with
      | Some v => Some v
      | None => class_value classes rest attr
      end
  end.

(** [v] is what the earliest listed class declaring [attr] says: some
    listed class is known and gives [attr] the value [v], and no known
    class listed before it declares [attr]. *)
Definition earliest_declares (classes : gmap string dict)
    (names : list string) (attr : string) (v : pyval) : Prop :=
  exists (i : nat) (name : string) (cls : dict),
    names !! i = Some name /\ classes !! name = Some cls /\
    cls !! attr = Some v /\
    forall (j : nat) (name' : string) (cls' : dict),
      (j < i)%nat -> names !! j = Some name' ->
      classes !! name' = Some cls' -> cls' !! attr = None.

(** ** Percentage values *)

(** The base dimension of an attribute: the grid cell size when the
    component has a [grid_cell] key, the interface size otherwise; the
    horizontal one for [width] and [x], the vertical one for the rest. *)
Definition base_dimension (size : Z * Z) (component : dict) (gw gh : option Z)
    (key : string) : option Z :=
  let horizontal := String.eqb key "width" || String.eqb key "x" in
  match component !! "grid_cell" with
  | Some _ => if horizontal then gw else gh
  | None => Some (if horizontal then fst size else snd size)
  end.

(** [round(base * percentage / 100)], as the specification words the
    formula: the nearest integer, a tie going to the even one. *)
Definition round_percentage (base percentage : Z) : Z :=
  let n := base * percentage in
  let q := n / 100 in
  let r := n mod 100 in
  if (2 * r <? 100)%Z then q
  else if (100 <? 2 * r)%Z then q + 1
  else if Z.even q then q else q + 1.

(** The specification's reading of the percentage pass, for one
    attribute given as the whole percentage [percentage]. *)
Definition resolves_rounded {U : Util} (size : Z * Z) (component : dict)
    (gw gh : option Z) (key : string) (percentage : Z) : Prop :=
  exists component' base,
    parse_percentage_values size component gw gh = Ok component' /\
    base_dimension size component gw gh key = Some base /\
    component' !! key = Some (VInt (round_percentage base percentage)).

(** ** The frame *)

(** The calls of a frame, in the order the specification gives them:
    updates of the groups, evaluation of the bindings, update of the
    overlays, hover resolution, drawing. *)
Definition phase (ev : event) : nat :=
  match ev with
  | GroupUpdate _ | SubgroupUpdate _ _ => 0
  | BindingsHandle => 1
  | OverlayUpdate _ => 2
  | HandleHover _ _ => 3
  | _ => 4
  end.

(** The layers of a drawn frame: background, underlayer, component
    groups, top overlay. *)
Definition layer (ev : event) : nat :=
  match ev with
  | Blit _ _ | Fill _ _ => 0
  | UnderlayerRender _ => 1
  | GroupDraw _ | SubgroupDraw _ _ => 2
  | _ => 3
  end.


Definition update_events (i : Interface) (dt : float) : list event :=
  (GroupUpdate dt :: ((fun g => SubgroupUpdate g dt) <$> _subgroups i)
     ++ [BindingsHandle; OverlayUpdate dt])%list.

Definition hover_events (i : Interface) : list event :=
  omap (fun tg : string * Group =>
          if gc_hoverable (g_class (snd tg))
          then Some (HandleHover (fst tg) [name i]) else None)
       (_component_type_groups i).

Definition group_draw_events (i : Interface) (surface : nat) : list event :=
  GroupDraw surface :: ((fun g => SubgroupDraw g surface) <$> _subgroups i).


(** Running a list of calls one after the other. *)
Definition script {C : Collaborators} (evs : list event) : Frame unit :=
  for_each call evs.

(** What [draw] puts down as the background. *)
Definition background_events (i : Interface) (surface : nat) : list event :=
  match _bg_image i with
  | Some img => [Blit surface img]
  | None =>
      if String.eqb (display i) "overlay" then []
      else [Fill surface (_bg_color i)]
  end.

Definition draw_events (i : Interface) (surface : nat) : list event :=
  (background_events i surface
     ++ UnderlayerRender surface :: group_draw_events i surface
     ++ [OverlayRender surface])%list.


(** ** Background *)

(** The specification's reading of the fallback: when the value does not
    load as an image, parsing succeeds only by storing the value as the
    fill colour, with no image set, and fails only on an invalid colour. *)
Definition fallback_as_specified {P : Pygame} (bg : pyval) (i : Interface)
  : Prop :=
  forall e, load_background bg (size i) = Err e ->
    (forall i', _parse_background bg i = Ok i' ->
       exists color, pygame_Color bg = Ok color /\
                     _bg_color i' = color /\ _bg_image i' = None) /\
    (forall e', _parse_background bg i = Err e' -> pygame_Color bg = Err e').

(** ** Component ids *)



(** The fields of the interface that parsing the components reads but
    does not write. *)
Definition same_settings (i i' : Interface) : Prop :=
  name i' = name i /\ display i' = display i /\ rows i' = rows i /\
  columns i' = columns i /\ size i' = size i /\
  _style_classes i' = _style_classes i /\
  _bg_color i' = _bg_color i /\ _bg_image i' = _bg_image i /\
  _bindings i' = _bindings i /\ _subgroups i' = _subgroups i.

(** Every component is at the position its identity names, sits in the
    group of its type and in the main group, and the type groups hold
    components of their own type only. *)
Definition grouped (i : Interface) : Prop :=
  (forall n c, _components i !! n = Some c -> c_obj c = n) /\
  (forall t g o, odict_get t (_component_type_groups i) = Some g ->
     o ∈ g_members g ->
     exists c, _components i !! o = Some c /\ c_type c = t) /\
  (forall c, c ∈ _components i ->
     exists g, odict_get (c_type c) (_component_type_groups i) = Some g /\
               c_obj c ∈ g_members g) /\
  (forall c, c ∈ _components i -> c_obj c ∈ _group i).

(** ** Floats that are exact

    The canonical binary64 float of [h * 2^e] for a mantissa of at most 53
    bits, and the float of the half-integer [h/2]. *)

Definition canon (s : bool) (h : positive) (e : Z) : float :=
  let d := Zpos (digits2_pos h) in
  S754_finite s (Z.to_pos (Zpos h * 2 ^ (53 - d))) (e + d - 53).

Definition half_float (h : Z) : float :=
  match h with
  | 0 => S754_zero false
  | Zpos p => canon false p (-1)
  | Zneg p => canon true p (-1)
  end.

(** ** Grid cells *)

(** The specification's reading of the grid pass: the component sits at
    the exact centre of its cell, [x = column*cell_w + cell_w/2] and
    [y = row*cell_h + cell_h/2], written here without the division. *)
Definition centered_as_specified (component : dict) (gw gh cols : Z) : Prop :=
  exists (component' : dict) (index x y : Z),
    component !! "grid_cell" = Some (VInt index) /\
    parse_grid_values "grid" component (Some gw) (Some gh) (Some cols)
      = Ok component' /\
    component' !! "x" = Some (VInt x) /\
    component' !! "y" = Some (VInt y) /\
    2 * x = 2 * ((index mod cols) * gw) + gw /\
    2 * y = 2 * ((index / cols) * gh) + gh.

(** The four attributes the percentage pass looks at. *)
Definition dimension_keys : list string := ["width"; "height"; "x"; "y"].

(** ** Examples *)

Definition example_classes : gmap string dict :=
  <["A" := <["color" := VStr "red"]> (<["width" := VInt 10]> ∅)]>
    (<["B" := <["color" := VStr "blue"]> (<["font" := VStr "mono"]> ∅)]> ∅).

Definition styled_component : dict :=
  <["style" := VList [VStr "A"; VStr "B"]]> (<["width" := VInt 5]> ∅).

Definition half_width_component : dict :=
  <["width" := VStr "50%"]> (<["type" := VStr "text"]> ∅).

Definition three_quarter_component : dict :=
  <["width" := VStr "75%"]> (<["type" := VStr "text"]> ∅).

(** An overlay interface without components, with the default
    transparent background colour. *)
Definition overlay_interface : Interface :=
  {| name := "pause"; display := "overlay"; rows := None; columns := None;
     parent := Some "main"; size := (640, 480);
     _bindings := {| bm_bindings := []; bm_next := 0 |};
     _bg_color := (0, 0, 0, 0); _bg_image := None;
     _group := []; _subgroups := []; _component_type_groups := [];
     _components := []; _style_classes := None |}.

(** A handled component that is not callable, and a function. *)
Definition label_object : PyObject :=
  {| obj_ref := 1; obj_handled_component := true; obj_callable := false |}.

Definition function_object : PyObject :=
  {| obj_ref := 2; obj_handled_component := false; obj_callable := true |}.

(** Components compare equal to their id; nothing else equals one. *)
Definition id_equality : ComponentEq :=
  {| component_eq := fun c key =>
       match key with
       | VStr s => String.eqb (c_id c) s
       | _ => false
       end |}.

(** A small menu: two decorations without an id, a title and a button. *)
Definition menu_components : list dict :=
  [ <["type" := VStr "text"]> (<["text" := VStr "----"]> ∅);
    <["type" := VStr "text"]> (<["id" := VStr "title"]> ∅);
    <["type" := VStr "button"]> (<["id" := VStr "play"]>
                                   (<["style" := VStr "A"]> ∅));
    <["type" := VStr "text"]> (<["text" := VStr "----"]> ∅) ].

Definition menu_construction : result Interface :=
  init (U := util_model) (CM := conversion_model) (P := pygame_model)
    "menu" (VStr "black") (640, 480) menu_components "default" None None
    None (Some example_classes).

Definition menu_interface : Interface :=
  match menu_construction with
  | Ok i => i
  | Err _ => overlay_interface
  end.

(** Two components declared with the same id. *)
Definition twin_components : list dict :=
  [ <["type" := VStr "text"]> (<["id" := VStr "title"]> ∅);
    <["type" := VStr "text"]> (<["id" := VStr "title"]> ∅) ].

Definition twin_construction : result Interface :=
  init (U := util_model) (CM := conversion_model) (P := pygame_model)
    "twins" (VStr "black") (640, 480) twin_components "default" None None
    None None.

Definition twin_interface : Interface :=
  match twin_construction with
  | Ok i => i
  | Err _ => overlay_interface
  end.

(** A 300 by 200 grid of two rows and three columns, and a 3 by 3 grid
    of a single cell. *)
Definition grid_interface : Interface :=
  {| name := "board"; display := "grid"; rows := Some 2; columns := Some 3;
     parent := None; size := (300, 200);
     _bindings := {| bm_bindings := []; bm_next := 0 |};
     _bg_color := (0, 0, 0, 0); _bg_image := None;
     _group := []; _subgroups := []; _component_type_groups := [];
     _components := []; _style_classes := None |}.

Definition cell_4_component : dict :=
  <["grid_cell" := VInt 4]> (<["type" := VStr "text"]>
                               (<["height" := VStr "auto"]> ∅)).

Definition cell_0_component : dict :=
  <["grid_cell" := VInt 0]> (<["type" := VStr "text"]> ∅).

(** A style class that declares an id, and a component that names the
    class and declares no id itself. *)
Definition badge_classes : gmap string dict :=
  <["badge" := <["id" := VStr "hud"]> ∅]> ∅.

Definition badge_component : dict :=
  <["type" := VStr "text"]> (<["style" := VStr "badge"]> ∅).

(** * Click and input dispatch

    [emit_click] and [emit_input] walk the type groups in the order of
    the dictionary and call into the groups of the right class; a call
    is recorded, and may raise. *)

Inductive dispatch :=
| HandleClick (type : string) (mpos : Z * Z) (interfaces : list string)
| HandleInput (type : string) (event : nat) (interfaces : list string).

(** Whether a group raises on a call, given the calls made before. *)
Class Dispatchers := {
  refuses : list dispatch -> dispatch -> bool
}.

Definition willing_dispatchers : Dispatchers :=
  {| refuses := fun _ _ => false |}.

Section Dispatch.
Context {D : Dispatchers}.

(** [for group in self._component_type_groups: if isinstance(...): ...] *)
Fixpoint dispatch_each (select : string * Group -> option dispatch)
    (groups : list (string * Group)) (log : list dispatch)
  : list dispatch * result unit :=
  match groups with
  | [] => (log, Ok tt)
  | tg :: rest =>
      match select tg with
      | None => dispatch_each select rest log
      | Some d =>
          if refuses log d then ((log ++ [d])%list, Err ExternalError)
          else dispatch_each select rest (log ++ [d])%list
      end
  end.

Definition emit_click (mpos : Z * Z) (i : Interface) (log : list dispatch)
  : list dispatch * result unit :=
  dispatch_each
    (fun tg => if gc_clickable (g_class (snd tg))
               then Some (HandleClick (fst tg) mpos [name i]) else None)
    (_component_type_groups i) log.

Definition emit_input (event : nat) (i : Interface) (log : list dispatch)
  : list dispatch * result unit :=
  dispatch_each
    (fun tg => if gc_input (g_class (snd tg))
               then Some (HandleInput (fst tg) event [name i]) else None)
    (_component_type_groups i) log.

End Dispatch.

(** The type whose group a call goes to. *)
Definition dispatch_type (d : dispatch) : string :=
  match d with
  | HandleClick type _ _ => type
  | HandleInput type _ _ => type
  end.

(** The types, in the order of the dictionary, whose group class has the
    capability [capable]. *)
Definition capable_types (capable : GroupClass -> bool) (i : Interface)
  : list string :=
  fst <$> filter (fun tg : string * Group => capable (g_class (snd tg)) = true)
            (_component_type_groups i).

(** The calls [emit_click], [emit_input] and [handle_hover] make when no
    group raises: one for each type group of the right class, naming this
    interface alone. *)
Definition click_calls (i : Interface) (mpos : Z * Z) : list dispatch :=
  (fun t => HandleClick t mpos [name i]) <$> capable_types gc_clickable i.

Definition input_calls (i : Interface) (event : nat) : list dispatch :=
  (fun t => HandleInput t event [name i]) <$> capable_types gc_input i.

Definition hover_calls (i : Interface) : list event :=
  (fun t => HandleHover t [name i]) <$> capable_types gc_hoverable i.

(** * Further notions *)

(** The components of one type, in the order of the list, and the first
    of them. *)
Definition of_type (t : string) (components : list Component)
  : list Component :=
  filter (fun c => c_type c = t) components.

Definition first_with_type (t : string) (components : list Component)
  : option Component :=
  head (of_type t components).

(** The group class [__handle_new_type_group] picks for a component. *)
Definition group_class_for {CM : ConversionMapping} (c : Component)
  : GroupClass :=
  match GROUP_CONVERSION_TABLE !! c_type c with
  | Some cls => cls
  | None =>
      match subtype_key (c_subtype c) ≫= (fun k => GROUP_CONVERSION_TABLE !! k) with
      | Some cls => cls
      | None => ComponentGroup
      end
  end.

(** The state the construction loop keeps: identities are positions, the
    main group lists them in order, no type has two groups, and the group
    of a type exists exactly when a component of the type does, holds the
    components of the type in order, and has the class picked for the
    first of them. *)
Definition well_grouped {CM : ConversionMapping} (i : Interface) : Prop :=
  c_obj <$> _components i = seq 0 (length (_components i)) /\
  _group i = seq 0 (length (_components i)) /\
  NoDup (fst <$> _component_type_groups i) /\
  forall t,
    match of_type t (_components i) with
    | [] => odict_get t (_component_type_groups i) = None
    | c :: rest =>
        exists g, odict_get t (_component_type_groups i) = Some g /\
                  g_members g = c_obj <$> (c :: rest) /\
                  g_class g = group_class_for c
    end.


(** [key in component and type(component[key]) is str and "%" in
    component[key]]: the attribute is a percentage string. *)
Definition is_percentage (component : dict) (key : string) : bool :=
  match component !! key with
  | Some (VStr s) => str_contains "%" s
  | _ => false
  end.

(** None of the four dimension attributes is a percentage string. *)
Definition no_percentage (component : dict) : Prop :=
  forall key, key ∈ dimension_keys -> is_percentage component key = false.

(** The float [2^-n]: 1.0, 0.5, 0.25 and so on. *)
Definition float_pow2 (n : Z) : float :=
  S754_finite false 4503599627370496 (-52 - n).

(** ** Further examples *)

(** The style merge applied to [styled_component]. *)
Definition merged_styled_component : dict :=
  match parse_style_classes (Some example_classes) styled_component with
  | Ok c => c
  | Err _ => ∅
  end.


(** A component with a cell index and a percentage width. *)
Definition misplaced_component : dict :=
  <["grid_cell" := VInt 0]> half_width_component.

Definition quarter_width_component : dict :=
  <["width" := VStr "25%"]> (<["type" := VStr "text"]> ∅).

(** A grid interface declared without columns. *)
Definition columnless_interface : Interface :=
  {| name := "board"; display := "grid"; rows := Some 2; columns := None;
     parent := None; size := (300, 200);
     _bindings := {| bm_bindings := []; bm_next := 0 |};
     _bg_color := (0, 0, 0, 0); _bg_image := None;
     _group := []; _subgroups := []; _component_type_groups := [];
     _components := []; _style_classes := None |}.






(** * Properties *)

(** ** Style classes *)

Lemma apply_class_lookup (cls component : dict) (attr : string) :
  apply_class cls component !! attr =
    match component !! attr with
    | Some v => Some v
    | None => cls !! attr
    end.
Proof.
  unfold apply_class. revert attr.
  apply (map_fold_weak_ind
           (fun (r m : dict) => forall attr,
                r !! attr = match component !! attr with
                            | Some v => Some v
                            | None => m !! attr
                            end)).
  - intros attr. rewrite lookup_empty. by destruct (component !! attr).
  - intros i x m r Hi IH attr.
    pose proof (IH i) as IHi. rewrite Hi in IHi.
    destruct (decide (attr = i)) as [->|Hne].
    + destruct (r !! i) as [w|] eqn:Hr.
      * rewrite Hr. by destruct (component !! i).
      * rewrite lookup_insert_eq. destruct (component !! i); [done|].
        by rewrite lookup_insert_eq.
    + rewrite (lookup_insert_ne m) by done.
      destruct (r !! i); [apply IH|].
      rewrite lookup_insert_ne by done. apply IH.
Qed.

Lemma class_value_earliest classes names attr v :
  class_value classes names attr = Some v <->
  earliest_declares classes names attr v.
Proof.
  induction names as [|n rest IH]; simpl.
  - split; [done|]. by intros (i & name & cls & Hi & _).
  - assert (Hshift : earliest_declares classes rest attr v ->
                     (classes !! n ≫= (fun cls : dict => cls !! attr)) = None ->
                     earliest_declares classes (n :: rest) attr v).
    { intros (i & name & cls0 & Hi & Hc & Hv & Hmin) Hn.
      exists (S i), name, cls0. repeat split; try done.
      intros [|j] name' cls' Hj Hl Hc'; simpl in Hl.
      - injection Hl as <-. by rewrite Hc' in Hn.
      - eapply (Hmin j); eauto. lia. }
    assert (Hunshift : forall i name cls0,
               (n :: rest) !! S i = Some name -> classes !! name = Some cls0 ->
               cls0 !! attr = Some v ->
               (forall j name' cls', (j < S i)%nat -> (n :: rest) !! j = Some name' ->
                   classes !! name' = Some cls' -> cls' !! attr = None) ->
               earliest_declares classes rest attr v).
    { intros i name cls0 Hi Hc Hv Hmin. exists i, name, cls0.
      repeat split; try done.
      intros j name' cls' Hj Hl Hc'.
      apply (Hmin (S j) name' cls'); [lia|done|done]. }
    destruct (classes !! n ≫= (fun cls : dict => cls !! attr)) as [w|] eqn:Hn.
    + split.
      * intros [= ->].
        destruct (classes !! n) as [cls|] eqn:Hcls; [|done]. simpl in Hn.
        exists 0%nat, n, cls. repeat split; try done. intros j ? ? Hj. lia.
      * intros (i & name & cls0 & Hi & Hc & Hv & Hmin).
        destruct i as [|i]; simpl in Hi.
        -- injection Hi as ->. rewrite Hc in Hn. simpl in Hn. congruence.
        -- destruct (classes !! n) as [cls|] eqn:Hcls; [|done]. simpl in Hn.
           specialize (Hmin 0%nat n cls). simpl in Hmin.
           rewrite Hmin in Hn; [done|lia|done|done].
    + rewrite IH. split; [by intros; apply Hshift|].
      intros (i & name & cls0 & Hi & Hc & Hv & Hmin).
      destruct i as [|i]; [|by eapply Hunshift].
      simpl in Hi. injection Hi as ->. rewrite Hc in Hn. simpl in Hn. congruence.
Qed.

Lemma apply_classes_names classes names component :
  exists component',
    apply_classes classes (VStr <$> names) component = Ok component' /\
    forall attr,
      component' !! attr =
        match component !! attr with
        | Some v => Some v
        | None => class_value classes names attr
        end.
Proof.
  revert component. induction names as [|n rest IH]; intros component; simpl.
  - exists component. split; [done|]. intros attr. by destruct (_ !! _).
  - destruct (classes !! n) as [cls|] eqn:Hn; simpl.
    + destruct (IH (apply_class cls component)) as (c' & Hc' & Hl).
      exists c'. split; [done|]. intros attr.
      rewrite Hl, apply_class_lookup.
      destruct (component !! attr); [done|]. by destruct (cls !! attr).
    + destruct (IH component) as (c' & Hc' & Hl). by exists c'.
Qed.

(** Whatever the style value is, a merge that succeeds keeps every
    attribute the component already had. *)
Lemma apply_classes_keeps classes styles component component' attr v :
  apply_classes classes styles component = Ok component' ->
  component !! attr = Some v -> component' !! attr = Some v.
Proof.
  revert component. induction styles as [|s rest IH]; intros component; simpl.
  - by intros [= ->].
  - destruct (find_class classes s) as [[cls|]|] eqn:Hs; simpl; [| |done].
    + intros H Hv. apply (IH _ H). by rewrite apply_class_lookup, Hv.
    + apply IH.
Qed.

Lemma parse_style_classes_keeps style_classes component component' attr v :
  parse_style_classes style_classes component = Ok component' ->
  component !! attr = Some v -> component' !! attr = Some v.
Proof.
  unfold parse_style_classes.
  destruct (component !! "style") as [s|]; [|by intros [= ->]].
  destruct style_classes as [cl|]; [|by intros [= ->]].
  assert (Hmulti :
    (items <- style_items s ;;
     match items with [] => Ok component
                 | _ => apply_classes cl items component end) = Ok component' ->
    component !! attr = Some v -> component' !! attr = Some v).
  { destruct (style_items s) as [items|]; simpl; [|done].
    destruct items; [by intros [= ->]|].
    apply apply_classes_keeps. }
  destruct (single_class cl s) as [cls|]; [|exact Hmulti].
  intros [= <-] Hv. by rewrite apply_class_lookup, Hv.
Qed.

(** C1.  For a component listing style classes (a list of names, or the
    name of one known class), the style merge succeeds; every attribute
    the component sets itself keeps its value, and an attribute the
    component does not set gets a value exactly when a listed known class
    declares it, namely the value of the earliest such class. *)
Theorem style_merge_priority (classes : gmap string dict) (component : dict)
    (names : list string) :
  component !! "style" = Some (VList (VStr <$> names)) \/
  (exists n, names = [n] /\ component !! "style" = Some (VStr n) /\
             is_Some (classes !! n)) ->
  exists component',
    parse_style_classes (Some classes) component = Ok component' /\
    (forall attr v, component !! attr = Some v -> component' !! attr = Some v) /\
    (forall attr v, component !! attr = None ->
       (component' !! attr = Some v <->
        earliest_declares classes names attr v)).
Proof.
  intros Hstyle.
  assert (exists component',
    parse_style_classes (Some classes) component = Ok component' /\
    forall attr, component' !! attr =
      match component !! attr with
      | Some v => Some v
      | None => class_value classes names attr
      end) as (c' & Hc' & Hl).
  { unfold parse_style_classes.
    destruct Hstyle as [Hs|(n & -> & Hs & [cls Hcls])]; rewrite Hs.
    - simpl. destruct names as [|n rest].
      + exists component. split; [done|]. intros attr. cbn [class_value].
        by destruct (component !! attr).
      + apply (apply_classes_names classes (n :: rest) component).
    - cbn [single_class]. rewrite Hcls.
      exists (apply_class cls component). split; [done|].
      intros attr. rewrite apply_class_lookup. simpl. rewrite Hcls. simpl.
      destruct (component !! attr); [done|]. by destruct (cls !! attr). }
  exists c'. split; [done|]. split.
  - intros attr v Hv. by rewrite Hl, Hv.
  - intros attr v Hv. rewrite Hl, Hv. apply class_value_earliest.
Qed.

Lemma style_merge_priority_witness :
  styled_component !! "style" = Some (VList (VStr <$> ["A"; "B"])) /\
  exists component',
    parse_style_classes (Some example_classes) styled_component = Ok component' /\
    (forall attr v, styled_component !! attr = Some v ->
                    component' !! attr = Some v) /\
    (forall attr v, styled_component !! attr = None ->
       (component' !! attr = Some v <->
        earliest_declares example_classes ["A"; "B"] attr v)).
Proof.
  split; [reflexivity|].
  apply (style_merge_priority example_classes styled_component ["A"; "B"]).
  left. reflexivity.
Defined.

(** Styles [[A, B]] both declaring [color]: the resolved colour is [A]'s,
    and the explicit [width] is not replaced by [A]'s. *)
Example style_merge_first_wins :
  (c <- parse_style_classes (Some example_classes) styled_component ;;
   Ok (c !! "color", c !! "width", c !! "font")) =
  Ok (Some (VStr "red"), Some (VInt 5), Some (VStr "mono")).
Proof. vm_compute. reflexivity. Qed.

(** ** Percentage values *)

Section PercentageFacts.
Context {U : Util}.

Lemma resolve_percent_other key base component component' k :
  resolve_percent key base component = Ok component' ->
  k <> key -> component' !! k = component !! k.
Proof.
  unfold resolve_percent. intros H Hk.
  destruct (component !! key) as [[| | |s| |]|]; try by injection H as <-.
  destruct (str_contains "%" s); [|by injection H as <-].
  destruct (percent_of base s) as [v|]; [|done]. simpl in H.
  injection H as <-. by rewrite lookup_insert_ne.
Qed.

Lemma resolve_percent_key key base component component' s :
  resolve_percent key base component = Ok component' ->
  component !! key = Some (VStr s) -> str_contains "%" s = true ->
  exists v, percent_of base s = Ok v /\ component' !! key = Some (VInt v).
Proof.
  unfold resolve_percent. intros H Hkey Hs. rewrite Hkey, Hs in H.
  destruct (percent_of base s) as [v|]; [|done]. simpl in H.
  injection H as <-. exists v. by rewrite lookup_insert_eq.
Qed.

Lemma resolve_percent_ok key base component :
  (forall s, component !! key = Some (VStr s) -> str_contains "%" s = true ->
             exists v, percent_of base s = Ok v) ->
  exists component', resolve_percent key base component = Ok component'.
Proof.
  unfold resolve_percent. intros H.
  destruct (component !! key) as [[| | |s| |]|]; eauto.
  destruct (str_contains "%" s) eqn:Hs; eauto.
  destruct (H s eq_refl Hs) as [v ->]. simpl. eauto.
Qed.

Lemma percent_of_inv base s v :
  percent_of base s = Ok v ->
  exists b p f, base = Some b /\ percent_to_float s = Ok p /\
                int_mul_float b p = Ok f /\ int_of_float f = Ok v.
Proof.
  unfold percent_of. destruct (percent_to_float s) as [p|]; [|done].
  destruct base as [b|]; [|done]. simpl.
  destruct (int_mul_float b p) as [f|] eqn:Hf; [|done]. simpl.
  intros Hv. by exists b, p, f.
Qed.

(** C2, as the code has it.  Whenever the product can be computed for
    each of [width], [height], [x], [y] that is a percentage string, the
    percentage pass succeeds and replaces each of them by
    [int(base * percent_to_float(s))]: the binary64 product of the base
    dimension and the float the string stands for, truncated toward zero.
    The base is the grid cell size when the component has a [grid_cell]
    key and the interface size otherwise. *)
Theorem percentage_truncates (size : Z * Z) (component : dict)
    (gw gh : option Z) :
  (forall key s, key ∈ dimension_keys ->
     component !! key = Some (VStr s) -> str_contains "%" s = true ->
     exists v, percent_of (base_dimension size component gw gh key) s = Ok v) ->
  exists component',
    parse_percentage_values size component gw gh = Ok component' /\
    forall key s, key ∈ dimension_keys ->
      component !! key = Some (VStr s) -> str_contains "%" s = true ->
      exists base p f v,
        base_dimension size component gw gh key = Some base /\
        percent_to_float s = Ok p /\
        int_mul_float base p = Ok f /\
        int_of_float f = Ok v /\
        component' !! key = Some (VInt v).
Proof.
  intros Hok. unfold parse_percentage_values.
  set (width := match component !! "grid_cell" with
                | Some _ => gw | None => Some (fst size) end).
  set (height := match component !! "grid_cell" with
                 | Some _ => gh | None => Some (snd size) end).
  assert (Hbase : forall key, key ∈ dimension_keys ->
            base_dimension size component gw gh key =
              if (String.eqb key "width" || String.eqb key "x")%bool
              then width else height).
  { intros key _. unfold base_dimension, width, height.
    destruct (component !! "grid_cell");
      by destruct (String.eqb key "width" || String.eqb key "x")%bool. }
  assert (Hw := Hok "width"). assert (Hh := Hok "height").
  assert (Hx := Hok "x"). assert (Hy := Hok "y").
  rewrite Hbase in Hw, Hh, Hx, Hy by (unfold dimension_keys; set_solver).
  simpl in Hw, Hh, Hx, Hy.
  assert (Hin : forall k : string, k ∈ dimension_keys ->
            k = "width" \/ k = "height" \/ k = "x" \/ k = "y").
  { unfold dimension_keys. set_solver. }
  destruct (resolve_percent_ok "width" width component) as [c1 H1].
  { intros s; apply Hw. unfold dimension_keys; set_solver. }
  rewrite H1. simpl.
  destruct (resolve_percent_ok "height" height c1) as [c2 H2].
  { intros s Hs. apply Hh; [unfold dimension_keys; set_solver|].
    by rewrite <- (resolve_percent_other _ _ _ _ "height" H1). }
  rewrite H2. simpl.
  destruct (resolve_percent_ok "x" width c2) as [c3 H3].
  { intros s Hs. apply Hx; [unfold dimension_keys; set_solver|].
    rewrite <- (resolve_percent_other _ _ _ _ "x" H1) by done.
    by rewrite <- (resolve_percent_other _ _ _ _ "x" H2). }
  rewrite H3. simpl.
  destruct (resolve_percent_ok "y" height c3) as [c4 H4].
  { intros s Hs. apply Hy; [unfold dimension_keys; set_solver|].
    rewrite <- (resolve_percent_other _ _ _ _ "y" H1) by done.
    rewrite <- (resolve_percent_other _ _ _ _ "y" H2) by done.
    by rewrite <- (resolve_percent_other _ _ _ _ "y" H3). }
  exists c4. split; [done|].
  intros key s Hkey Hs Hpct. rewrite (Hbase key Hkey).
  assert (exists v, percent_of
            (if (String.eqb key "width" || String.eqb key "x")%bool
             then width else height) s = Ok v /\
            c4 !! key = Some (VInt v)) as (v & Hv & Hc4).
  { destruct (Hin key Hkey) as [-> | [-> | [-> | ->]]]; simpl.
    - destruct (resolve_percent_key _ _ _ _ _ H1 Hs Hpct) as (v & Hv & Hl).
      exists v. split; [done|].
      rewrite (resolve_percent_other _ _ _ _ "width" H4) by done.
      rewrite (resolve_percent_other _ _ _ _ "width" H3) by done.
      by rewrite (resolve_percent_other _ _ _ _ "width" H2).
    - rewrite <- (resolve_percent_other _ _ _ _ "height" H1) in Hs by done.
      destruct (resolve_percent_key _ _ _ _ _ H2 Hs Hpct) as (v & Hv & Hl).
      exists v. split; [done|].
      rewrite (resolve_percent_other _ _ _ _ "height" H4) by done.
      by rewrite (resolve_percent_other _ _ _ _ "height" H3).
    - rewrite <- (resolve_percent_other _ _ _ _ "x" H1) in Hs by done.
      rewrite <- (resolve_percent_other _ _ _ _ "x" H2) in Hs by done.
      destruct (resolve_percent_key _ _ _ _ _ H3 Hs Hpct) as (v & Hv & Hl).
      exists v. split; [done|].
      by rewrite (resolve_percent_other _ _ _ _ "x" H4).
    - rewrite <- (resolve_percent_other _ _ _ _ "y" H1) in Hs by done.
      rewrite <- (resolve_percent_other _ _ _ _ "y" H2) in Hs by done.
      rewrite <- (resolve_percent_other _ _ _ _ "y" H3) in Hs by done.
      destruct (resolve_percent_key _ _ _ _ _ H4 Hs Hpct) as (v & Hv & Hl).
      by exists v. }
  destruct (percent_of_inv _ _ _ Hv) as (b & p & f & Hb & Hp & Hf & Hi).
  by exists b, p, f, v.
Qed.

End PercentageFacts.

(** A width of ["50%"] on a 200 pixel wide interface resolves to 100. *)
Example half_of_200 :
  (c <- parse_percentage_values (U := util_model) (200, 100)
          half_width_component None None ;;
   Ok (c !! "width")) = Ok (Some (VInt 100)).
Proof. vm_compute. reflexivity. Qed.

(** On a grid-placed component the base is the cell, not the interface. *)
Example half_of_cell :
  (c <- parse_percentage_values (U := util_model) (200, 100)
          (<["grid_cell" := VInt 0]> half_width_component) (Some 50) (Some 20) ;;
   Ok (c !! "width")) = Ok (Some (VInt 25)).
Proof. vm_compute. reflexivity. Qed.

(** The product is truncated: 75% of 5 is 3.75 and resolves to 3. *)
Example three_quarters_of_5 :
  (c <- parse_percentage_values (U := util_model) (5, 5)
          three_quarter_component None None ;;
   Ok (c !! "width")) = Ok (Some (VInt 3)).
Proof. vm_compute. reflexivity. Qed.

(** The float product is what is truncated: 29% of 100 resolves to 28,
    since [0.29] is a little less than 29/100 in binary64. *)
Example float_product_29_percent :
  (c <- parse_percentage_values (U := util_model) (100, 100)
          (<["width" := VStr "29%"]> ∅) None None ;;
   Ok (c !! "width")) = Ok (Some (VInt 28)).
Proof. vm_compute. reflexivity. Qed.

(** C2 as stated fails: with rounding, 75% of 5 would be 4. *)
Lemma percentage_not_rounded :
  ~ resolves_rounded (U := util_model) (5, 5) three_quarter_component
      None None "width" 75.
Proof.
  intros (c' & base & Hc & Hb & Hw).
  pose proof three_quarters_of_5 as H. rewrite Hc in H. simpl in H.
  vm_compute in Hb. injection Hb as <-.
  rewrite Hw in H. vm_compute in H. discriminate H.
Qed.

Lemma percentage_truncates_witness :
  (forall key s, key ∈ dimension_keys ->
     half_width_component !! key = Some (VStr s) ->
     str_contains "%" s = true ->
     exists v, percent_of (U := util_model)
                 (base_dimension (200, 100) half_width_component None None key)
                 s = Ok v) /\
  exists component',
    parse_percentage_values (U := util_model) (200, 100)
      half_width_component None None = Ok component' /\
    forall key s, key ∈ dimension_keys ->
      half_width_component !! key = Some (VStr s) ->
      str_contains "%" s = true ->
      exists base p f v,
        base_dimension (200, 100) half_width_component None None key = Some base /\
        percent_to_float (Util := util_model) s = Ok p /\
        int_mul_float base p = Ok f /\
        int_of_float f = Ok v /\
        component' !! key = Some (VInt v).
Proof.
  assert (H : forall key s, key ∈ dimension_keys ->
     half_width_component !! key = Some (VStr s) ->
     str_contains "%" s = true ->
     exists v, percent_of (U := util_model)
                 (base_dimension (200, 100) half_width_component None None key)
                 s = Ok v).
  { intros key s Hkey Hs _. unfold dimension_keys in Hkey.
    repeat (apply elem_of_cons in Hkey as [-> | Hkey]);
      [| | | |by apply elem_of_nil in Hkey];
      vm_compute in Hs; try discriminate Hs.
    injection Hs as <-. exists 100. vm_compute. reflexivity. }
  split; [exact H|].
  exact (percentage_truncates (U := util_model) (200, 100)
           half_width_component None None H).
Defined.

(** ** The frame *)




Section FrameFacts.
Context {C : Collaborators}.

Lemma script_cons (ev : event) (evs log : list event) :
  script (ev :: evs) log =
    if raises log ev then ((log ++ [ev])%list, Err ExternalError)
    else script evs (log ++ [ev])%list.
Proof.
  unfold script. simpl. unfold fbind, call. by destruct (raises log ev).
Qed.

(** A script logs a prefix of its calls, all of them when it returns. *)
Lemma script_runs (evs log : list event) :
  exists made : list event,
    made `prefix_of` evs /\
    fst (script evs log) = (log ++ made)%list /\
    (snd (script evs log) = Ok tt -> made = evs).
Proof.
  revert log. induction evs as [|ev evs IH]; intros log.
  - exists []. simpl. by rewrite app_nil_r.
  - rewrite script_cons. destruct (raises log ev).
    + exists [ev]. simpl. split; [by apply prefix_cons, prefix_nil|]. done.
    + destruct (IH (log ++ [ev])%list) as (made & Hp & Hl & Hr).
      exists (ev :: made). split; [by apply prefix_cons|].
      split.
      * rewrite Hl. by rewrite <- app_assoc.
      * intros H. f_equal. by apply Hr.
Qed.

Lemma script_app (a b : list event) (log : list event) :
  fbind (script a) (fun _ => script b) log = script (a ++ b) log.
Proof.
  revert log. induction a as [|ev a IH]; intros log; [done|].
  simpl app. rewrite script_cons. unfold fbind. rewrite script_cons.
  destruct (raises log ev); [done|]. apply (IH (log ++ [ev])%list).
Qed.

Lemma for_each_calls {A} (f : A -> event) (l : list A) (log : list event) :
  for_each (fun x => call (f x)) l log = script (f <$> l) log.
Proof.
  revert log. induction l as [|x l IH]; intros log; [done|].
  simpl fmap. rewrite script_cons. simpl. unfold fbind, call.
  destruct (raises log (f x)); [done|]. apply IH.
Qed.

Lemma for_each_some_calls {A} (f : A -> option event) (l : list A) log :
  for_each (fun x => match f x with Some ev => call ev | None => fret tt end)
    l log = script (omap f l) log.
Proof.
  revert log. induction l as [|x l IH]; intros log; [done|].
  simpl. destruct (f x) as [ev|].
  - rewrite script_cons. unfold fbind, call.
    destruct (raises log ev); [done|]. apply IH.
  - unfold fbind, fret. apply IH.
Qed.

Lemma subgroups_guard {A} (f : A -> event) (l : list A) log :
  (if (0 <? length l)%nat then for_each (fun x => call (f x)) l else fret tt)
    log = script (f <$> l) log.
Proof. destruct l; [done|]. apply for_each_calls. Qed.

Lemma fbind_ext {A B} (m m' : Frame A) (k k' : A -> Frame B) log :
  (forall l, m l = m' l) -> (forall a l, k a l = k' a l) ->
  fbind m k log = fbind m' k' log.
Proof.
  intros Hm Hk. unfold fbind. rewrite Hm.
  destruct (m' log) as [log' [a|e]]; [apply Hk|done].
Qed.

Lemma call_script (ev : event) (log : list event) :
  call ev log = script [ev] log.
Proof. rewrite script_cons. unfold call. by destruct (raises log ev). Qed.

Lemma call_then (ev : event) (k : Frame unit) (evs log : list event) :
  (forall l, k l = script evs l) ->
  fbind (call ev) (fun _ => k) log = script (ev :: evs) log.
Proof.
  intros Hk. rewrite script_cons. unfold fbind, call.
  destruct (raises log ev); [done|]. apply Hk.
Qed.

Lemma update_script i dt log :
  update i dt log = script (update_events i dt) log.
Proof.
  unfold update, update_events. apply call_then. intros l.
  rewrite <- script_app. apply fbind_ext; [apply subgroups_guard|].
  intros _ l'. apply call_then. intros l''. apply call_script.
Qed.

Lemma handle_hover_script i log :
  handle_hover i log = script (hover_events i) log.
Proof.
  unfold handle_hover, hover_events.
  rewrite <- for_each_some_calls.
  generalize (_component_type_groups i). intros l. revert log.
  induction l as [|tg l IH]; intros log; [done|].
  simpl. apply fbind_ext; [|intros _; apply IH].
  intros l'. by destruct (gc_hoverable (g_class (snd tg))).
Qed.

End FrameFacts.

Section FrameOrder.
Context {C : Collaborators}.

Lemma draw_script i surface log :
  draw i surface log = script (draw_events i surface) log.
Proof.
  unfold draw, draw_events. rewrite <- script_app. apply fbind_ext.
  - intros l. unfold background_events. destruct (_bg_image i) as [img|].
    + apply call_script.
    + destruct (String.eqb (display i) "overlay"); [done|]. apply call_script.
  - intros _ l. apply call_then. intros l'. unfold group_draw_events.
    simpl app. apply call_then. intros l''. rewrite <- script_app.
    apply fbind_ext; [apply subgroups_guard|]. intros _ l3. apply call_script.
Qed.


End FrameOrder.



Lemma background_events_layer i surface ev :
  ev ∈ background_events i surface -> layer ev = 0%nat /\ phase ev = 4%nat.
Proof.
  unfold background_events. destruct (_bg_image i).
  - by intros ->%list_elem_of_singleton.
  - destruct (String.eqb _ _); [by intros ?%elem_of_nil|].
    by intros ->%list_elem_of_singleton.
Qed.








(** The overlay interface is what construction yields for no components
    and no background. *)
Example overlay_interface_constructed :
  init (U := util_model) (CM := conversion_model) (P := pygame_model)
    "pause" VNone (640, 480) [] "overlay" None None (Some "main") None
  = Ok overlay_interface.
Proof. vm_compute. reflexivity. Qed.




(** ** Bindings *)

(** C9.  [create_binding] returns an id only when [c2] is a handled
    component and [a2] is given, or [c2] is callable; in that case the
    binding is registered under the returned id.  In every other case
    the call fails with [UnboundLocalError] and the interface, its
    bindings included, is left as it was. *)
Theorem create_binding_unbound (c1 : PyObject) (a1 : string) (c2 : PyObject)
    (a2 : option string) (i : Interface) :
  let bindable :=
    (obj_handled_component c2 = true /\ a2 <> None) \/ obj_callable c2 = true in
  (forall id i', create_binding c1 a1 c2 a2 i = (Ok id, i') -> bindable) /\
  (bindable ->
   exists b, create_binding c1 a1 c2 a2 i =
               (Ok (bm_next (_bindings i)),
                set_bindings (snd (bm_register b (_bindings i))) i) /\
             (b = CallbackBinding (c1, a1) c2 \/
              exists a2', a2 = Some a2' /\
                          b = ComponentBinding (c1, a1) (c2, a2'))) /\
  (~ bindable -> create_binding c1 a1 c2 a2 i = (Err UnboundLocalError, i)).
Proof.
  unfold create_binding. cbv zeta.
  destruct (obj_handled_component c2) eqn:Hh, a2 as [a2'|],
    (obj_callable c2) eqn:Hc; cbn [bm_register fst snd];
    (split; [|split]).
  all: try (intros id i' H; first [discriminate H | tauto | (left; done)]).
  all: try (intros H; exfalso; apply H; tauto).
  all: try (intros H; exfalso; apply H; left; done).
  all: try (intros [[? ?]|?]; done).
  all: try (intros _; eexists; split; [reflexivity|]; eauto; fail).
  all: try (intros [[_ H]|H]; [by exfalso; apply H|]; fail).
  all: try done.
Qed.

(** A component handed over without its attribute: no binding, no id. *)
Example create_binding_without_attribute :
  create_binding label_object "text" label_object None overlay_interface =
    (Err UnboundLocalError, overlay_interface).
Proof. reflexivity. Qed.

Lemma create_binding_unbound_witness :
  create_binding label_object "text" label_object None overlay_interface =
    (Err UnboundLocalError, overlay_interface).
Proof.
  apply (create_binding_unbound label_object "text" label_object None
           overlay_interface).
  intros [[_ H] | H]; [by apply H | discriminate H].
Defined.

Example create_binding_callback :
  fst (create_binding label_object "text" function_object None
         overlay_interface) = Ok 0%nat.
Proof. reflexivity. Qed.

(** ** Lookup by item *)

Section GetItem.
Context {E : ComponentEq}.

Lemma list_index_range {A} (eq : A -> bool) (l : list A) (idx : Z) :
  list_index eq l = Ok idx ->
  0 <= idx < Z.of_nat (length l) /\
  exists x, l !! Z.to_nat idx = Some x /\ eq x = true.
Proof.
  revert idx. induction l as [|x l IH]; intros idx; simpl; [done|].
  destruct (eq x) eqn:Hx.
  - intros [= <-]. split; [lia|]. by exists x.
  - destruct (list_index eq l) as [j|]; [|done]. simpl. intros [= <-].
    destruct (IH j eq_refl) as [Hj (y & Hy & Heq)].
    split; [lia|]. exists y. split; [|done].
    replace (Z.to_nat (1 + j)) with (S (Z.to_nat j)) by lia. done.
Qed.

Lemma list_index_missing {A} (eq : A -> bool) (l : list A) :
  (forall x, x ∈ l -> eq x = false) -> list_index eq l = Err ValueError.
Proof.
  induction l as [|x l IH]; intros H; simpl; [done|].
  rewrite (H x) by (apply elem_of_cons; by left).
  rewrite IH; [done|]. intros y Hy. apply H. apply elem_of_cons. by right.
Qed.

(** C10.  When no component of the interface equals the key,
    [__getitem__] raises the [ValueError] of [list.index].  An index that
    [list.index] returns is a position in the list, never [-1], so for no
    key at all does [__getitem__] return [None]; when it returns, it
    returns a component of the interface that equals the key. *)
Theorem getitem_missing_raises (key : pyval) (i : Interface) :
  ((forall c, c ∈ _components i -> component_eq c key = false) ->
   getitem key i = Err ValueError) /\
  (forall idx,
     list_index (fun c => component_eq c key) (_components i) = Ok idx ->
     idx <> -1) /\
  getitem key i <> Ok None /\
  (forall r, getitem key i = Ok r ->
     exists c, r = Some c /\ c ∈ _components i /\ component_eq c key = true).
Proof.
  unfold getitem. split; [|split; [|split]].
  - intros H. by rewrite list_index_missing.
  - intros idx H. apply list_index_range in H. lia.
  - destruct (list_index _ _) as [idx|] eqn:Hidx; [|done]. simpl.
    destruct (list_index_range _ _ _ Hidx) as [Hr (c & Hc & _)].
    destruct (Z.eqb_spec idx (-1)); [lia|]. simpl. by rewrite Hc.
  - intros r. destruct (list_index _ _) as [idx|] eqn:Hidx; [|done]. simpl.
    destruct (list_index_range _ _ _ Hidx) as [Hr (c & Hc & Heq)].
    destruct (Z.eqb_spec idx (-1)); [lia|]. simpl. rewrite Hc.
    intros [= <-]. exists c. repeat split; try done.
    by eapply list_elem_of_lookup_2.
Qed.

End GetItem.

(** ** Construction *)

Lemma odict_get_set {V} (k k' : string) (v : V) (d : list (string * V)) :
  odict_get k' (odict_set k v d) =
    if decide (k = k') then Some v else odict_get k' d.
Proof.
  induction d as [|[k0 v0] d IH]; simpl.
  - destruct (String.eqb_spec k k'); by destruct (decide (k = k')).
  - destruct (String.eqb_spec k0 k) as [->|Hk0]; simpl.
    + destruct (String.eqb_spec k k'); by destruct (decide (k = k')).
    + rewrite IH. destruct (String.eqb_spec k0 k'); [|done].
      subst k0. by destruct (decide (k = k')).
Qed.

Lemma odict_set_keys {V} (k : string) (v : V) (d : list (string * V)) :
  fst <$> odict_set k v d =
    if decide (k ∈ fst <$> d) then fst <$> d else (fst <$> d) ++ [k].
Proof.
  induction d as [|[k0 v0] d IH]; cbn [odict_set].
  - destruct (decide (k ∈ fst <$> [])) as [H|]; [by apply elem_of_nil in H|done].
  - rewrite (fmap_cons fst (k0, v0) d). cbn [fst].
    destruct (String.eqb_spec k0 k) as [->|Hk0]; rewrite fmap_cons; cbn [fst].
    + destruct (decide (k ∈ k :: (fst <$> d))) as [|H]; [done|].
      exfalso. apply H, elem_of_cons. by left.
    + rewrite IH. destruct (decide (k ∈ fst <$> d)) as [Hin|Hin].
      * destruct (decide (k ∈ k0 :: (fst <$> d))) as [|H]; [done|].
        exfalso. apply H, elem_of_cons. by right.
      * destruct (decide (k ∈ k0 :: (fst <$> d))) as [H|]; [|done].
        apply elem_of_cons in H as [->|H]; done.
Qed.

Lemma odict_get_keys {V} (k : string) (d : list (string * V)) :
  odict_get k d = None <-> k ∉ fst <$> d.
Proof.
  induction d as [|[k0 v0] d IH]; cbn [odict_get].
  - split; [intros _ H; by apply elem_of_nil in H|done].
  - rewrite fmap_cons. cbn [fst]. rewrite not_elem_of_cons.
    destruct (String.eqb_spec k0 k) as [->|Hk0]; [split; [done|tauto]|].
    rewrite IH. split; [|tauto]. intros H. split; [congruence|done].
Qed.

Section ConstructionFacts.
Context {U : Util} {CM : ConversionMapping}.

Lemma convert_component_inv obj type_ interface kwargs c :
  convert_component obj type_ interface kwargs = Ok c ->
  c_obj c = obj /\ c_kwargs c = kwargs /\ c_interface c = interface /\
  kwargs !! "id" = Some (VStr (c_id c)) /\
  kwargs !! "type" = Some (VStr (c_type c)) /\
  exists cls, COMPONENT_CONVERSION_TABLE !! type_ = Some cls /\
              c_subtype c = cc_subtype cls.
Proof.
  unfold convert_component.
  destruct (kwargs !! "type_"); [done|].
  destruct (kwargs !! "interface"); [done|].
  destruct (COMPONENT_CONVERSION_TABLE !! type_) as [cls|]; [|done].
  destruct (cc_rejects cls kwargs); [done|].
  destruct (kwargs !! "id") as [[| | |id| |]|]; try done.
  destruct (kwargs !! "type") as [[| | |ty| |]|]; try done.
  intros [= <-]. simpl. eauto 10.
Qed.

Lemma register_component_inv c i i' :
  register_component c i = Ok i' ->
  exists g,
    odict_get (c_type c)
      (match odict_get (c_type c) (_component_type_groups i) with
       | Some _ => _component_type_groups i
       | None => odict_set (c_type c) (new_type_group c)
                   (_component_type_groups i)
       end) = Some g /\
    (forall g0, odict_get (c_type c) (_component_type_groups i) = Some g0 ->
                g = g0) /\
    (odict_get (c_type c) (_component_type_groups i) = None ->
     g = new_type_group c) /\
    _components i' = (_components i ++ [c])%list /\
    _group i' = (if decide (c_obj c ∈ _group i) then _group i
                 else (_group i ++ [c_obj c])%list) /\
    (forall t, odict_get t (_component_type_groups i') =
               if decide (c_type c = t) then Some (group_add (c_obj c) g)
               else odict_get t (_component_type_groups i)) /\
    same_settings i i'.
Proof.
  unfold register_component.
  destruct (odict_get (c_type c) (_component_type_groups i)) as [g0|] eqn:Hg0.
  - rewrite Hg0. intros [= <-]. exists g0. simpl.
    repeat split; try done.
    + by intros g1 [= ->].
    + intros t. apply odict_get_set.
  - rewrite odict_get_set. destruct (decide (c_type c = c_type c)); [|done].
    intros [= <-]. exists (new_type_group c). simpl.
    repeat split; try done.
    intros t. rewrite !odict_get_set.
    by destruct (decide (c_type c = t)).
Qed.

Lemma parse_component_inv gw gh i d i' :
  parse_component gw gh i d = Ok i' ->
  exists kwargs type_ c,
    resolve_component i gw gh d = Ok kwargs /\
    declared_type kwargs = Ok type_ /\
    convert_component (length (_components i)) type_ (name i) kwargs = Ok c /\
    register_component c i = Ok i'.
Proof.
  unfold parse_component.
  destruct (resolve_component i gw gh d) as [kwargs|]; [|done]. cbn [rbind].
  destruct (declared_type kwargs) as [type_|] eqn:Ht; [|done]. cbn [rbind].
  destruct (convert_component _ _ _ _) as [c|] eqn:Hc; [|done]. cbn [rbind].
  intros H. exists kwargs, type_, c. repeat split; done.
Qed.

Lemma same_settings_refl i : same_settings i i.
Proof. by repeat split. Qed.

Lemma same_settings_trans i1 i2 i3 :
  same_settings i1 i2 -> same_settings i2 i3 -> same_settings i1 i3.
Proof.
  unfold same_settings. intros H1 H2.
  repeat split; etrans; (try apply H2); (try apply H1).
Qed.

Lemma parse_component_settings gw gh i d i' :
  parse_component gw gh i d = Ok i' -> same_settings i i'.
Proof.
  intros (kwargs & type_ & c & _ & _ & _ & H)%parse_component_inv.
  apply register_component_inv in H as (g & _ & _ & _ & _ & _ & _ & H).
  exact H.
Qed.

Lemma parse_each_settings gw gh ds i i' :
  parse_each gw gh ds i = Ok i' -> same_settings i i'.
Proof.
  revert i. induction ds as [|d ds IH]; intros i; simpl.
  - intros [= <-]. apply same_settings_refl.
  - destruct (parse_component gw gh i d) as [i1|] eqn:H1; [|done]. simpl.
    intros H. eapply same_settings_trans; [|by apply IH].
    by eapply parse_component_settings.
Qed.

End ConstructionFacts.

(** ** Background *)

Section BackgroundFacts.
Context {U : Util} {CM : ConversionMapping} {P : Pygame}.

Lemma parse_components_settings ds i i' :
  _parse_components ds i = Ok i' -> same_settings i i'.
Proof.
  unfold _parse_components.
  destruct (grid_cell_size i) as [[gw gh]|]; [|done]. cbn [rbind fst snd].
  apply parse_each_settings.
Qed.

(** C7, as the code has it.  When the value does not load as an image:
    a [None] background is left alone, nothing is stored and nothing is
    raised; any other value is handed to [pygame.Color], a valid colour
    is stored as the fill colour and an invalid one is the only error
    background parsing raises.  An interface that had no image has none
    afterwards, so after construction with such a value there is the
    colour and no image. *)
Theorem background_fallback (bg : pyval) (i : Interface) (e : exn) :
  load_background bg (size i) = Err e ->
  (bg = VNone -> _parse_background bg i = Ok i) /\
  (bg <> VNone -> forall color, pygame_Color bg = Ok color ->
     exists i', background_setter bg i = Ok i' /\ _bg_color i' = color /\
                (_bg_image i = None -> _bg_image i' = None)) /\
  (bg <> VNone -> forall e', pygame_Color bg = Err e' ->
     _parse_background bg i = Err e') /\
  (forall e', _parse_background bg i = Err e' -> pygame_Color bg = Err e') /\
  (forall name components display rows columns parent styles i',
     bg <> VNone ->
     init name bg (size i) components display rows columns parent styles
       = Ok i' ->
     exists color, pygame_Color bg = Ok color /\
                   _bg_color i' = color /\ _bg_image i' = None).
Proof.
  intros Hload.
  assert (Hparse : forall j, size j = size i ->
            _parse_background bg j =
              match bg with
              | VNone => Ok j
              | _ => color <- pygame_Color bg ;;
                     Ok (set_background color (_bg_image j) j)
              end).
  { intros j Hj. unfold _parse_background. by rewrite Hj, Hload. }
  split; [|split; [|split; [|split]]].
  - intros ->. by rewrite Hparse.
  - intros Hbg color Hcolor. unfold background_setter. rewrite Hparse by done.
    exists (set_background color (_bg_image i) i).
    destruct bg; try done; by rewrite Hcolor.
  - intros Hbg e' He'. rewrite Hparse by done.
    destruct bg; try done; by rewrite He'.
  - intros e'. rewrite Hparse by done.
    destruct bg; try done; destruct (pygame_Color _); try done;
      by intros [= ->].
  - intros name components display rows columns parent styles i' Hbg.
    unfold init. rewrite Hparse by done.
    destruct (pygame_Color bg) as [color|] eqn:Hc.
    + assert (Hset : forall j,
                (match bg with
                 | VNone => Ok j
                 | _ => color <- Ok color ;;
                        Ok (set_background color (_bg_image j) j)
                 end) = Ok (set_background color (_bg_image j) j)).
      { intros j. by destruct bg. }
      rewrite Hset. cbn [rbind]. intros Hc'.
      apply parse_components_settings in Hc'.
      destruct Hc' as (_ & _ & _ & _ & _ & _ & Hcol & Himg & _).
      exists color. by rewrite Hcol, Himg.
    + by destruct bg.
Qed.

End BackgroundFacts.

(** C7 as stated fails: a [None] background does not load as an image,
    is not stored as a colour and raises nothing. *)
Lemma none_background_not_stored :
  ~ fallback_as_specified (P := pygame_model) VNone overlay_interface.
Proof.
  intros H. destruct (H TypeError eq_refl) as [Hok _].
  destruct (Hok overlay_interface eq_refl) as (color & Hc & _).
  discriminate Hc.
Qed.

Lemma background_fallback_witness :
  load_background (P := pygame_model) (VStr "red") (size overlay_interface)
    = Err ExternalError /\
  exists i', background_setter (P := pygame_model) (VStr "red")
               overlay_interface = Ok i' /\
             _bg_color i' = (255, 0, 0, 255) /\
             (_bg_image overlay_interface = None -> _bg_image i' = None).
Proof.
  split; [reflexivity|].
  apply (background_fallback (U := util_model) (CM := conversion_model)
           (P := pygame_model) (VStr "red") overlay_interface ExternalError
           eq_refl); [discriminate|reflexivity].
Defined.

(** The colour assigned after an image has been loaded is stored, but
    the image stays and is what the [background] property returns. *)
Example color_after_image :
  (i1 <- background_setter (P := pygame_model) (VStr "bg.png") overlay_interface ;;
   i2 <- background_setter (P := pygame_model) (VStr "red") i1 ;;
   Ok (_bg_color i2, background i2)) =
  Ok ((255, 0, 0, 255), inl {| surface_ref := 1; get_size := (640, 480) |}).
Proof. vm_compute. reflexivity. Qed.

(** ** Type groups *)

Lemma group_add_members obj g o :
  o ∈ g_members (group_add obj g) <-> o ∈ g_members g \/ o = obj.
Proof.
  unfold group_add. simpl. destruct (decide (obj ∈ g_members g)) as [Hin|Hin].
  - split; [by left|]. by intros [?| ->].
  - rewrite elem_of_app, list_elem_of_singleton. tauto.
Qed.

Section GroupFacts.
Context {U : Util} {CM : ConversionMapping}.

Lemma register_component_grouped c i i' :
  grouped i -> c_obj c = length (_components i) ->
  register_component c i = Ok i' -> grouped i'.
Proof.
  intros (I1 & I3 & I4 & I5) Hobj Hreg.
  apply register_component_inv in Hreg
    as (g & Hg & Hsome & Hnone & Hcomps & Hgroup & Hget & _).
  assert (Hnew : (_components i ++ [c]) !! c_obj c = Some c).
  { rewrite Hobj. rewrite lookup_app_r by lia.
    by rewrite Nat.sub_diag. }
  assert (Hold : forall o c', _components i !! o = Some c' ->
                              (_components i ++ [c]) !! o = Some c').
  { intros o c' H. by apply lookup_app_l_Some. }
  assert (Hmem : forall o, o ∈ g_members g ->
            exists c', _components i !! o = Some c' /\ c_type c' = c_type c).
  { intros o Ho.
    destruct (odict_get (c_type c) (_component_type_groups i)) as [g0|] eqn:Hg0.
    - rewrite <- (Hsome g0 eq_refl) in Hg0. by eapply I3.
    - rewrite (Hnone eq_refl) in Ho. by apply elem_of_nil in Ho. }
  repeat split.
  - intros n c'. rewrite Hcomps. intros [H|[Hn H]]%lookup_app_Some.
    + by apply I1.
    + destruct (n - length (_components i))%nat as [|m] eqn:Hm; [|done].
      injection H as <-. lia.
  - intros t g' o. rewrite Hget, Hcomps.
    destruct (decide (c_type c = t)) as [<-|Ht].
    + intros [= <-]. rewrite group_add_members. intros [Ho| ->].
      * destruct (Hmem o Ho) as (c' & Hc' & Hty). exists c'. eauto.
      * by exists c.
    + intros Hg' Ho. destruct (I3 t g' o Hg' Ho) as (c' & Hc' & Hty).
      exists c'. eauto.
  - intros c'. rewrite Hcomps, elem_of_app, list_elem_of_singleton.
    intros [Hc'| ->].
    + destruct (I4 c' Hc') as (g1 & Hg1 & Hin). rewrite Hget.
      destruct (decide (c_type c = c_type c')) as [Heq|Hne].
      * exists (group_add (c_obj c) g). split; [done|].
        apply group_add_members. left.
        rewrite <- Heq in Hg1. by rewrite (Hsome g1 Hg1).
      * by exists g1.
    + exists (group_add (c_obj c) g). rewrite Hget.
      destruct (decide (c_type c = c_type c)); [|done]. split; [done|].
      apply group_add_members. by right.
  - intros c'. rewrite Hcomps, Hgroup, elem_of_app, list_elem_of_singleton.
    intros [Hc'| ->].
    + specialize (I5 c' Hc'). destruct (decide (c_obj c ∈ _group i)); [done|].
      apply elem_of_app. by left.
    + destruct (decide (c_obj c ∈ _group i)); [done|].
      apply elem_of_app. right. by apply list_elem_of_singleton.
Qed.

Lemma parse_component_grouped gw gh i d i' :
  grouped i -> parse_component gw gh i d = Ok i' -> grouped i'.
Proof.
  intros Hi (kwargs & type_ & c & _ & _ & Hc & Hreg)%parse_component_inv.
  apply convert_component_inv in Hc as (Hobj & _).
  by eapply register_component_grouped.
Qed.

Lemma parse_each_grouped gw gh ds i i' :
  grouped i -> parse_each gw gh ds i = Ok i' -> grouped i'.
Proof.
  revert i. induction ds as [|d ds IH]; intros i Hi; simpl.
  - by intros [= <-].
  - destruct (parse_component gw gh i d) as [i1|] eqn:H1; [|done]. simpl.
    apply IH. by eapply parse_component_grouped.
Qed.

Lemma grouped_exactly_one i c :
  grouped i -> c ∈ _components i ->
  (exists g, get_type_group (c_type c) i = Some g /\ c_obj c ∈ g_members g) /\
  (forall t g, get_type_group t i = Some g -> c_obj c ∈ g_members g ->
               t = c_type c) /\
  c_obj c ∈ _group i.
Proof.
  intros (I1 & I3 & I4 & I5) Hc. unfold get_type_group.
  split; [by apply I4|]. split; [|by apply I5].
  intros t g Hg Hin. destruct (I3 t g _ Hg Hin) as (c' & Hc' & <-).
  apply list_elem_of_lookup in Hc as [n Hn].
  rewrite <- (I1 n c Hn) in Hn. congruence.
Qed.

Lemma grouped_identities i : grouped i -> NoDup (c_obj <$> _components i).
Proof.
  intros (I1 & _). apply NoDup_alt. intros j k o.
  rewrite !list_lookup_fmap.
  destruct (_components i !! j) as [cj|] eqn:Hj; [|done].
  destruct (_components i !! k) as [ck|] eqn:Hk; [|done].
  simpl. intros [= <-] [= H]. rewrite (I1 j cj Hj) in H.
  by rewrite (I1 k ck Hk) in H.
Qed.

End GroupFacts.

Section Grouping.
Context {U : Util} {CM : ConversionMapping} {P : Pygame}.

Lemma parse_background_inv bg j j' :
  _parse_background bg j = Ok j' ->
  exists color image, j' = set_background color image j.
Proof.
  unfold _parse_background.
  destruct (load_background bg (size j)) as [img|].
  - intros [= <-]. eauto.
  - destruct bg; try (intros [= <-]; exists (_bg_color j), (_bg_image j);
                      by destruct j);
      (destruct (pygame_Color _) as [color|]; [|done]);
      intros [= <-]; eauto.
Qed.

Lemma init_inv nm bg sz ds disp rws cols par styles i :
  init nm bg sz ds disp rws cols par styles = Ok i ->
  exists i0,
    _components i0 = [] /\ _component_type_groups i0 = [] /\ _group i0 = [] /\
    _style_classes i0 = styles /\ size i0 = sz /\ display i0 = disp /\
    columns i0 = cols /\ rows i0 = rws /\ name i0 = nm /\
    _parse_components ds i0 = Ok i.
Proof.
  unfold init.
  destruct (_parse_background bg _) as [i0|] eqn:Hbg; [|done]. cbn [rbind].
  intros H. exists i0. apply parse_background_inv in Hbg as (c & im & ->).
  by repeat split.
Qed.

(** C6.  After construction the components have pairwise distinct
    identities, and every component of [_components] is a member of the
    group stored under its type, of no group stored under another type,
    and of the main group [_group]. *)
Theorem components_grouped nm bg sz ds disp rws cols par styles i :
  init nm bg sz ds disp rws cols par styles = Ok i ->
  NoDup (c_obj <$> _components i) /\
  forall c, c ∈ _components i ->
    (exists g, get_type_group (c_type c) i = Some g /\
               c_obj c ∈ g_members g) /\
    (forall t g, get_type_group t i = Some g -> c_obj c ∈ g_members g ->
                 t = c_type c) /\
    c_obj c ∈ _group i.
Proof.
  intros (i0 & Hc & Hg & Hm & _ & _ & _ & _ & _ & _ & Hparse)%init_inv.
  assert (Hi : grouped i).
  { unfold _parse_components in Hparse.
    destruct (grid_cell_size i0) as [[gw gh]|]; [|done].
    cbn [rbind fst snd] in Hparse.
    eapply parse_each_grouped; [|done].
    unfold grouped. rewrite Hc, Hg. repeat split; try done.
    - intros c [? H]%list_elem_of_lookup. done.
    - intros c [? H]%list_elem_of_lookup. done. }
  split; [by apply grouped_identities|].
  intros c. by apply grouped_exactly_one.
Qed.

End Grouping.

(** ** Component ids *)





Lemma default_size_other key cell component k :
  k <> key -> default_size key cell component !! k = component !! k.
Proof.
  intros Hk. unfold default_size. destruct (component !! key) as [v|].
  - destruct (py_eqb v (VStr "auto")); [|done]. by rewrite lookup_insert_ne.
  - by rewrite lookup_insert_ne.
Qed.

Lemma parse_grid_values_other disp component gw gh cols component' k :
  parse_grid_values disp component gw gh cols = Ok component' ->
  k <> "x" -> k <> "y" -> k <> "width" -> k <> "height" ->
  component' !! k = component !! k.
Proof.
  unfold parse_grid_values. intros H Hx Hy Hw Hh.
  destruct (negb (String.eqb disp "grid")); [by injection H as <-|].
  destruct (component !! "grid_cell") as [cell|]; [|by injection H as <-].
  destruct (int_operand cell) as [index|]; [|done]. cbn [rbind] in H.
  destruct (require_int cols) as [cs|]; [|done]. cbn [rbind] in H.
  destruct (py_floordiv index cs) as [row|]; [|done]. cbn [rbind] in H.
  destruct (py_mod index cs) as [column|]; [|done]. cbn [rbind] in H.
  destruct (require_int gw) as [w|]; [|done]. cbn [rbind] in H.
  destruct (cell_center column w) as [x|]; [|done]. cbn [rbind] in H.
  destruct (require_int gh) as [h|]; [|done]. cbn [rbind] in H.
  destruct (cell_center row h) as [y|]; [|done]. cbn [rbind] in H.
  injection H as <-.
  rewrite !default_size_other by done. by rewrite !lookup_insert_ne.
Qed.

Section IdFacts.
Context {U : Util} {CM : ConversionMapping}.

Lemma parse_percentage_values_other sz component gw gh component' k :
  parse_percentage_values sz component gw gh = Ok component' ->
  k <> "x" -> k <> "y" -> k <> "width" -> k <> "height" ->
  component' !! k = component !! k.
Proof.
  unfold parse_percentage_values. intros H Hx Hy Hw Hh.
  destruct (resolve_percent "width" _ component) as [c1|] eqn:H1; [|done].
  cbn [rbind] in H.
  destruct (resolve_percent "height" _ c1) as [c2|] eqn:H2; [|done].
  cbn [rbind] in H.
  destruct (resolve_percent "x" _ c2) as [c3|] eqn:H3; [|done].
  cbn [rbind] in H.
  rewrite (resolve_percent_other _ _ _ _ k H) by done.
  rewrite (resolve_percent_other _ _ _ _ k H3) by done.
  rewrite (resolve_percent_other _ _ _ _ k H2) by done.
  by rewrite (resolve_percent_other _ _ _ _ k H1).
Qed.

Lemma resolve_component_id i gw gh d kwargs :
  resolve_component i gw gh d = Ok kwargs ->
  exists merged,
    parse_style_classes (_style_classes i) d = Ok merged /\
    kwargs !! "id" = Some (default (VStr "_") (merged !! "id")).
Proof.
  unfold resolve_component.
  destruct (parse_style_classes _ d) as [c1|]; [|done]. cbn [rbind].
  destruct (parse_percentage_values _ c1 gw gh) as [c2|] eqn:H2; [|done].
  cbn [rbind].
  destruct (parse_grid_values _ c2 gw gh _) as [c3|] eqn:H3; [|done].
  cbn [rbind]. intros [= <-]. exists c1. split; [done|].
  rewrite !lookup_insert_ne by done.
  assert (c3 !! "id" = c1 !! "id") as Hid.
  { rewrite (parse_grid_values_other _ _ _ _ _ _ "id" H3) by done.
    by rewrite (parse_percentage_values_other _ _ _ _ _ "id" H2). }
  rewrite <- Hid. destruct (c3 !! "id") as [v|] eqn:Hv; simpl.
  - done.
  - by rewrite lookup_insert_eq.
Qed.

Lemma resolve_component_settings i i' gw gh d :
  same_settings i i' ->
  resolve_component i' gw gh d = resolve_component i gw gh d.
Proof.
  intros (_ & Hd & _ & Hc & Hs & Hst & _). unfold resolve_component.
  by rewrite Hd, Hc, Hs, Hst.
Qed.

Lemma parse_component_appends gw gh i d i' :
  parse_component gw gh i d = Ok i' ->
  exists c merged,
    _components i' = _components i ++ [c] /\
    parse_style_classes (_style_classes i) d = Ok merged /\
    VStr (c_id c) = default (VStr "_") (merged !! "id").
Proof.
  intros (kwargs & type_ & c & Hk & _ & Hc & Hreg)%parse_component_inv.
  apply convert_component_inv in Hc as (_ & _ & _ & Hid & _).
  apply register_component_inv in Hreg as (g & _ & _ & _ & Hcs & _).
  apply resolve_component_id in Hk as (merged & Hm & Hid').
  exists c, merged. repeat split; try done. congruence.
Qed.

Lemma parse_each_positions gw gh ds i i' :
  parse_each gw gh ds i = Ok i' ->
  (exists cs, _components i' = _components i ++ cs /\ length cs = length ds) /\
  forall j d, ds !! j = Some d ->
    exists c merged,
      _components i' !! (length (_components i) + j)%nat = Some c /\
      parse_style_classes (_style_classes i) d = Ok merged /\
      VStr (c_id c) = default (VStr "_") (merged !! "id").
Proof.
  revert i. induction ds as [|d ds IH]; intros i; simpl.
  - intros [= <-]. split; [exists []; by rewrite app_nil_r|done].
  - destruct (parse_component gw gh i d) as [i1|] eqn:H1; [|done]. simpl.
    intros H. destruct (IH i1 H) as [(cs & Hcs & Hlen) Hpos].
    pose proof (parse_component_settings _ _ _ _ _ H1) as (_&_&_&_&_&Hst&_).
    destruct (parse_component_appends _ _ _ _ _ H1) as (c & merged & Hc & Hm & Hid).
    split.
    + exists (c :: cs). rewrite Hcs, Hc, <- app_assoc. simpl.
      split; [done|]. by rewrite Hlen.
    + intros [|j] d' Hd'; simpl in Hd'.
      * injection Hd' as <-. exists c, merged. repeat split; try done.
        rewrite Hcs, Hc, <- app_assoc, Nat.add_0_r.
        rewrite lookup_app_r by lia. by rewrite Nat.sub_diag.
      * destruct (Hpos j d' Hd') as (c' & merged' & Hl & Hm' & Hid').
        exists c', merged'. rewrite <- Hst. repeat split; try done.
        rewrite <- Hl. f_equal. rewrite Hc, length_app. simpl. lia.
Qed.

End IdFacts.

Section Ids.
Context {U : Util} {CM : ConversionMapping} {P : Pygame}.


End Ids.

Example menu_constructed : menu_construction = Ok menu_interface.
Proof. vm_compute. reflexivity. Qed.


(** The menu: four components, the two decorations share the sentinel
    id and the type groups are keyed by the declared type. *)
Example menu_ids :
  c_id <$> _components menu_interface = ["_"; "title"; "play"; "_"] /\
  c_type <$> _components menu_interface = ["text"; "text"; "button"; "text"] /\
  (fst <$> map_to_list (component_mapping menu_interface))
    ≡ₚ ["title"; "play"] /\
  ((fun tg => (fst tg, g_members (snd tg))) <$>
     _component_type_groups menu_interface)
  = [("text", [0; 1; 3]%nat); ("button", [2%nat])] /\
  _group menu_interface = [0; 1; 2; 3]%nat.
Proof.
  repeat split; vm_compute; reflexivity.
Qed.

(** The sentinel is given after the style merge: an id declared by a
    style class is the component's id. *)
Example style_class_supplies_id :
  (i <- init (U := util_model) (CM := conversion_model) (P := pygame_model)
          "hud" VNone (640, 480) [badge_component] "default" None None None
          (Some badge_classes) ;;
   Ok (c_id <$> _components i)) = Ok ["hud"].
Proof. vm_compute. reflexivity. Qed.


Lemma components_grouped_witness :
  menu_construction = Ok menu_interface /\
  NoDup (c_obj <$> _components menu_interface) /\
  forall c, c ∈ _components menu_interface ->
    (exists g, get_type_group (c_type c) menu_interface = Some g /\
               c_obj c ∈ g_members g) /\
    (forall t g, get_type_group t menu_interface = Some g ->
                 c_obj c ∈ g_members g -> t = c_type c) /\
    c_obj c ∈ _group menu_interface.
Proof.
  split; [exact menu_constructed|].
  exact (components_grouped (U := util_model) (CM := conversion_model)
           (P := pygame_model) "menu" (VStr "black") (640, 480)
           menu_components "default" None None None (Some example_classes)
           menu_interface menu_constructed).
Defined.


Lemma getitem_missing_raises_witness :
  (forall c, c ∈ _components menu_interface ->
             component_eq (ComponentEq := id_equality) c (VStr "quit") = false) /\
  getitem (E := id_equality) (VStr "quit") menu_interface = Err ValueError.
Proof.
  assert (H : forall c, c ∈ _components menu_interface ->
             component_eq (ComponentEq := id_equality) c (VStr "quit") = false).
  { apply Forall_forall. vm_compute. repeat constructor. }
  split; [exact H|].
  exact (proj1 (getitem_missing_raises (E := id_equality) (VStr "quit")
                  menu_interface) H).
Defined.

(** A component is found under its id when components compare equal to
    their id. *)
Example getitem_play :
  match getitem (E := id_equality) (VStr "play") menu_interface with
  | Ok (Some c) => c_id c = "play" /\ c_obj c = 2%nat
  | _ => False
  end.
Proof. vm_compute. split; reflexivity. Qed.

(** ** Binary64: when the arithmetic of the grid pass is exact *)

Local Open Scope Z_scope.

Lemma pow2_succ (d : Z) : 0 < d -> 2 ^ d = 2 * 2 ^ (d - 1).
Proof.
  intros Hd. replace d with (Z.succ (d - 1)) at 1 by lia.
  apply Z.pow_succ_r. lia.
Qed.

Lemma digits2_pos_bounds (m : positive) :
  2 ^ (Zpos (digits2_pos m) - 1) <= Zpos m < 2 ^ Zpos (digits2_pos m).
Proof.
  induction m as [m IH|m IH|]; simpl digits2_pos.
  - rewrite Pos2Z.inj_succ, Z.sub_1_r, Z.pred_succ, Z.pow_succ_r by lia.
    rewrite (pow2_succ (Zpos (digits2_pos m))) in * by lia.
    lia.
  - rewrite Pos2Z.inj_succ, Z.sub_1_r, Z.pred_succ, Z.pow_succ_r by lia.
    rewrite (pow2_succ (Zpos (digits2_pos m))) in * by lia.
    lia.
  - simpl. lia.
Qed.

Lemma digits2_pos_unique (m : positive) (d : Z) :
  2 ^ (d - 1) <= Zpos m < 2 ^ d -> Zpos (digits2_pos m) = d.
Proof.
  intros [Hlo Hhi]. pose proof (digits2_pos_bounds m) as [Hlo' Hhi'].
  assert (0 < d).
  { destruct (Z_lt_le_dec 0 d); [done|].
    assert (2 ^ d <= 2 ^ 0) by (apply Z.pow_le_mono_r; lia).
    assert (0 <= d \/ d < 0) as [|] by lia.
    - change (2 ^ 0) with 1 in *. lia.
    - rewrite Z.pow_neg_r in Hhi by lia. lia. }
  set (d' := Zpos (digits2_pos m)) in *.
  destruct (Z.lt_trichotomy d' d) as [Hlt|[Heq|Hgt]]; [|done|].
  - assert (2 ^ d' <= 2 ^ (d - 1)) by (apply Z.pow_le_mono_r; lia). lia.
  - assert (2 ^ d <= 2 ^ (d' - 1)) by (apply Z.pow_le_mono_r; lia). lia.
Qed.

Lemma digits2_pos_shift (m m' : positive) (k : Z) :
  0 <= k -> Zpos m' = Zpos m * 2 ^ k ->
  Zpos (digits2_pos m') = Zpos (digits2_pos m) + k.
Proof.
  intros Hk Hm'. apply digits2_pos_unique. rewrite Hm'.
  pose proof (digits2_pos_bounds m) as [Hlo Hhi].
  replace (Zpos (digits2_pos m) + k - 1) with ((Zpos (digits2_pos m) - 1) + k) by lia.
  rewrite !Z.pow_add_r by lia.
  assert (0 < 2 ^ k) by (apply Z.pow_pos_nonneg; lia).
  split; [apply Z.mul_le_mono_nonneg_r; lia|apply Z.mul_lt_mono_pos_r; lia].
Qed.

Lemma pos_iter_xO (m d : positive) :
  Zpos (Pos.iter xO m d) = Zpos m * 2 ^ Zpos d.
Proof.
  change (Pos.iter xO m d) with (shift_pos d m).
  rewrite shift_pos_correct. apply Z.mul_comm.
Qed.

Lemma shl_align_down (m : positive) (e e' : Z) :
  e' <= e ->
  exists m', shl_align m e e' = (m', e') /\ Zpos m' = Zpos m * 2 ^ (e - e').
Proof.
  intros He. unfold shl_align. destruct (e' - e) as [|p|p] eqn:Hd.
  - assert (e' = e) as -> by lia. exists m. rewrite Z.sub_diag. split; [done|lia].
  - lia.
  - exists (Pos.iter xO m p). split; [done|].
    rewrite pos_iter_xO. f_equal. f_equal. lia.
Qed.

Lemma shl_align_up (m : positive) (e e' : Z) :
  e <= e' -> shl_align m e e' = (m, e).
Proof.
  intros He. unfold shl_align. destruct (e' - e) as [|p|p] eqn:Hd; try done. lia.
Qed.

Lemma iter_shr_exact (p m : positive) :
  SpecFloat.iter_pos shr_1 p {| shr_m := Zpos (Pos.iter xO m p); shr_r := false; shr_s := false |}
  = {| shr_m := Zpos m; shr_r := false; shr_s := false |}.
Proof.
  revert m. induction p as [p IH|p IH|]; intros m; simpl.
  - by rewrite !IH.
  - by rewrite !IH.
  - done.
Qed.

Lemma fexp_normal (x : Z) : -1021 <= x -> fexp prec emax x = x - 53.
Proof. intros Hx. unfold fexp, emin, prec, emax. lia. Qed.

(** Rounding a mantissa that is a 53-bit number times a power of two. *)
Lemma binary_round_aux_exact (s : bool) (mp mk : positive) (k e : Z) :
  Zpos (digits2_pos mp) = 53 -> 0 <= k -> -1074 <= e + k <= 971 ->
  Zpos mk = Zpos mp * 2 ^ k ->
  binary_round_aux prec emax s (Zpos mk) e loc_Exact = S754_finite s mp (e + k).
Proof.
  intros Hd Hk He Hmk.
  assert (Hdk : Zpos (digits2_pos mk) = 53 + k).
  { rewrite <- Hd. by apply digits2_pos_shift. }
  assert (Hfinal :
    (let '(mrs'', e'') :=
       shr_fexp prec emax (Zpos mp) (e + k) loc_Exact in
     match shr_m mrs'' with
     | 0 => S754_zero s
     | Zpos m => if e'' <=? emax - prec then S754_finite s m e'' else S754_infinity s
     | Zneg _ => S754_nan
     end) = S754_finite s mp (e + k)).
  { unfold shr_fexp. simpl Zdigits2. rewrite Hd, fexp_normal by lia.
    replace (53 + (e + k) - 53 - (e + k)) with 0 by lia. simpl.
    unfold emax, prec. destruct (Z.leb_spec (e + k) (1024 - 53)); [done|lia]. }
  unfold binary_round_aux. unfold shr_fexp at 1. simpl Zdigits2.
  rewrite Hdk, fexp_normal by lia.
  replace (53 + k + e - 53 - e) with k by lia.
  destruct k as [|p|p]; [| |lia].
  - simpl shr. cbn [shr_record_of_loc shr_m loc_of_shr_record round_nearest_even].
    rewrite Z.add_0_r in *. replace mk with mp by lia. exact Hfinal.
  - assert (mk = Pos.iter xO mp p) as ->.
    { apply Pos2Z.inj. by rewrite pos_iter_xO. }
    unfold shr. cbn [shr_record_of_loc]. rewrite iter_shr_exact.
    cbn [shr_m loc_of_shr_record round_nearest_even]. exact Hfinal.
Qed.

Lemma canon_mantissa (h : positive) :
  Zpos (digits2_pos h) <= 53 ->
  Zpos (Z.to_pos (Zpos h * 2 ^ (53 - Zpos (digits2_pos h)))) =
    Zpos h * 2 ^ (53 - Zpos (digits2_pos h)) /\
  Zpos (digits2_pos (Z.to_pos (Zpos h * 2 ^ (53 - Zpos (digits2_pos h))))) = 53.
Proof.
  intros Hd.
  assert (0 < 2 ^ (53 - Zpos (digits2_pos h))) by (apply Z.pow_pos_nonneg; lia).
  assert (Hpos : Zpos (Z.to_pos (Zpos h * 2 ^ (53 - Zpos (digits2_pos h)))) =
                 Zpos h * 2 ^ (53 - Zpos (digits2_pos h))).
  { rewrite Z2Pos.id; [done|]. apply Z.mul_pos_pos; lia. }
  split; [done|].
  pose proof (digits2_pos_shift h _ (53 - Zpos (digits2_pos h)) ltac:(lia) Hpos).
  lia.
Qed.

(** Rounding any representation [hj * 2^(e-j)] of the number [h * 2^e]
    with at most 53 significant bits gives its canonical float. *)
Lemma binary_round_exact (s : bool) (h hj : positive) (e j : Z) :
  Zpos (digits2_pos h) <= 53 ->
  -1074 <= e + Zpos (digits2_pos h) - 53 <= 971 ->
  0 <= j -> Zpos hj = Zpos h * 2 ^ j ->
  binary_round prec emax s hj (e - j) = canon s h e.
Proof.
  intros Hd He Hj Hhj. set (d := Zpos (digits2_pos h)) in *.
  destruct (canon_mantissa h Hd) as [Hm Hm53]. fold d in Hm, Hm53.
  assert (Hdj : Zpos (digits2_pos hj) = d + j) by (by apply digits2_pos_shift).
  unfold binary_round. rewrite Hdj, fexp_normal by lia.
  replace (d + j + (e - j) - 53) with (e + d - 53) by lia.
  unfold canon. fold d.
  destruct (Z_lt_le_dec (e + d - 53) (e - j)) as [Hlt|Hge].
  - destruct (shl_align_down hj (e - j) (e + d - 53)) as (m' & -> & Hm'); [lia|].
    replace (e + d - 53) with (e + d - 53 + 0) at 2 by lia.
    apply (binary_round_aux_exact s _ m' 0); [exact Hm53|lia|lia|].
    rewrite Hm', Hhj, Hm, <- Z.mul_assoc, <- Z.pow_add_r by lia.
    rewrite Z.pow_0_r. replace (j + (e - j - (e + d - 53))) with (53 - d) by lia.
    lia.
  - rewrite shl_align_up by lia.
    replace (e + d - 53) with (e - j + (j - (53 - d))) by lia.
    apply binary_round_aux_exact; [exact Hm53|lia|lia|].
    rewrite Hhj, Hm, <- Z.mul_assoc, <- Z.pow_add_r by lia.
    f_equal. f_equal. lia.
Qed.

Lemma digits2_pos_le (p : positive) (n : Z) :
  0 <= n -> Zpos p < 2 ^ n -> Zpos (digits2_pos p) <= n.
Proof.
  intros Hn Hp. pose proof (digits2_pos_bounds p) as [Hlo _].
  destruct (Z_le_gt_dec (Zpos (digits2_pos p)) n) as [|Hgt]; [done|].
  assert (2 ^ n <= 2 ^ (Zpos (digits2_pos p) - 1))
    by (apply Z.pow_le_mono_r; lia).
  lia.
Qed.

Lemma canon_double (s : bool) (p : positive) (e : Z) :
  Zpos (digits2_pos p) <= 52 -> canon s (p~0) (e - 1) = canon s p e.
Proof.
  intros Hd. unfold canon. simpl digits2_pos. rewrite Pos2Z.inj_succ.
  f_equal; [|lia]. f_equal.
  rewrite (pow2_succ (53 - Zpos (digits2_pos p))) by lia.
  replace (53 - Z.succ (Zpos (digits2_pos p)))
    with (53 - Zpos (digits2_pos p) - 1) by lia.
  lia.
Qed.

Lemma float_of_int_half (a : Z) :
  Z.abs a < 2 ^ 52 -> float_of_int a = Ok (half_float (2 * a)).
Proof.
  intros Ha. unfold float_of_int, binary_normalize.
  destruct a as [|p|p]; [done| |].
  - assert (Zpos (digits2_pos p) <= 52) by (apply digits2_pos_le; lia).
    change (2 * Zpos p) with (Zpos p~0). unfold half_float.
    replace (-1) with (0 - 1) by lia. rewrite canon_double by done.
    replace 0 with (0 - 0) at 1 by lia.
    rewrite (binary_round_exact false p p 0 0); [done|lia|lia|lia|lia].
  - assert (Zpos (digits2_pos p) <= 52) by (apply digits2_pos_le; lia).
    change (2 * Zneg p) with (Zneg p~0). unfold half_float.
    replace (-1) with (0 - 1) by lia. rewrite canon_double by done.
    replace 0 with (0 - 0) at 1 by lia.
    rewrite (binary_round_exact true p p 0 0); [done|lia|lia|lia|lia].
Qed.

Lemma div_core_by_two (p : positive) :
  Zpos (digits2_pos p) <= 53 ->
  SFdiv_core_binary prec emax (Zpos p) 0 2 0 =
    (Zpos p * 2 ^ (54 - Zpos (digits2_pos p)),
     Zpos (digits2_pos p) - 55, loc_Exact).
Proof.
  intros Hd. unfold SFdiv_core_binary, Zdigits2. cbv zeta.
  change (Zpos (digits2_pos 2)) with 2.
  replace (Zpos (digits2_pos p) + 0 - (2 + 0))
    with (Zpos (digits2_pos p) - 2) by lia.
  rewrite fexp_normal by lia. rewrite Z.min_l by lia.
  replace (0 - 0 - (Zpos (digits2_pos p) - 2 - 53))
    with (55 - Zpos (digits2_pos p)) by lia.
  destruct (55 - Zpos (digits2_pos p)) as [|q|q] eqn:Hs; [lia| |lia].
  rewrite Z.shiftl_mul_pow2 by lia. rewrite <- Hs.
  rewrite (pow2_succ (55 - Zpos (digits2_pos p))) by lia.
  replace (55 - Zpos (digits2_pos p) - 1)
    with (54 - Zpos (digits2_pos p)) by lia.
  set (X := Zpos p * 2 ^ (54 - Zpos (digits2_pos p))).
  replace (Zpos p * (2 * 2 ^ (54 - Zpos (digits2_pos p)))) with (2 * X)
    by (unfold X; lia).
  pose proof (Z_div_mod (2 * X) 2 ltac:(lia)) as Hdm.
  destruct (Z.div_eucl (2 * X) 2) as [q' r].
  assert (q' = X /\ r = 0) as [-> ->] by lia.
  f_equal. f_equal; lia.
Qed.

Lemma int_truediv_half (g : Z) :
  Z.abs g < 2 ^ 53 -> int_truediv g 2 = Ok (half_float g).
Proof.
  intros Hg. unfold int_truediv.
  assert (Hcase : forall (s : bool) (p : positive), Zpos p < 2 ^ 53 ->
    (let '(mz, ez, lz) := SFdiv_core_binary prec emax (Zpos p) 0 2 0 in
     finite_or_overflow (binary_round_aux prec emax s mz ez lz))
    = Ok (canon s p (-1))).
  { intros s p Hp.
    assert (Hd : Zpos (digits2_pos p) <= 53) by (apply digits2_pos_le; lia).
    rewrite div_core_by_two by done.
    destruct (canon_mantissa p Hd) as [Hm Hm53].
    set (d := Zpos (digits2_pos p)) in *.
    assert (0 < 2 ^ (54 - d)) by (apply Z.pow_pos_nonneg; lia).
    rewrite <- (Z2Pos.id (Zpos p * 2 ^ (54 - d))) by (apply Z.mul_pos_pos; lia).
    rewrite (binary_round_aux_exact s
               (Z.to_pos (Zpos p * 2 ^ (53 - d))) _ 1 (d - 55));
      [|exact Hm53|lia|lia|].
    - unfold canon. fold d. simpl. do 2 f_equal. lia.
    - rewrite Z2Pos.id by (apply Z.mul_pos_pos; lia).
      rewrite Hm. rewrite (pow2_succ (54 - d)) by lia.
      replace (54 - d - 1) with (53 - d) by lia. lia. }
  destruct g as [|p|p]; [done| |].
  - apply (Hcase false p). lia.
  - apply (Hcase true p). lia.
Qed.

Lemma cond_Zopp_mul (s : bool) (a b : Z) :
  cond_Zopp s (a * b) = cond_Zopp s a * b.
Proof. destruct s; simpl; lia. Qed.

Lemma binary_normalize_half (h : Z) (K : Z) :
  Z.abs h < 2 ^ 53 -> 0 <= K ->
  binary_normalize prec emax (h * 2 ^ K) (-1 - K) false = half_float h.
Proof.
  intros Hh HK.
  assert (0 < 2 ^ K) by (apply Z.pow_pos_nonneg; lia).
  destruct h as [|p|p]; [done| |].
  - assert (Hd : Zpos (digits2_pos p) <= 53) by (apply digits2_pos_le; lia).
    pose proof (digits2_pos_bounds p).
    rewrite <- (Z2Pos.id (Zpos p * 2 ^ K)) by (apply Z.mul_pos_pos; lia).
    simpl. apply binary_round_exact; [done|lia|lia|].
    rewrite Z2Pos.id by (apply Z.mul_pos_pos; lia). done.
  - assert (Hd : Zpos (digits2_pos p) <= 53) by (apply digits2_pos_le; lia).
    pose proof (digits2_pos_bounds p).
    replace (Zneg p * 2 ^ K) with (- (Zpos p * 2 ^ K)) by lia.
    rewrite <- (Z2Pos.id (Zpos p * 2 ^ K)) by (apply Z.mul_pos_pos; lia).
    simpl. apply binary_round_exact; [done|lia|lia|].
    rewrite Z2Pos.id by (apply Z.mul_pos_pos; lia). done.
Qed.

Lemma SFadd_canon (s1 s2 : bool) (p1 p2 : positive) :
  Zpos p1 < 2 ^ 53 -> Zpos p2 < 2 ^ 53 ->
  Z.abs (cond_Zopp s1 (Zpos p1) + cond_Zopp s2 (Zpos p2)) < 2 ^ 53 ->
  SFadd prec emax (canon s1 p1 (-1)) (canon s2 p2 (-1)) =
    half_float (cond_Zopp s1 (Zpos p1) + cond_Zopp s2 (Zpos p2)).
Proof.
  intros H1 H2 Hsum.
  assert (Hd1 : Zpos (digits2_pos p1) <= 53) by (apply digits2_pos_le; lia).
  assert (Hd2 : Zpos (digits2_pos p2) <= 53) by (apply digits2_pos_le; lia).
  destruct (canon_mantissa p1 Hd1) as [Hm1 _].
  destruct (canon_mantissa p2 Hd2) as [Hm2 _].
  unfold canon, SFadd.
  set (d1 := Zpos (digits2_pos p1)) in *. set (d2 := Zpos (digits2_pos p2)) in *.
  assert (0 < d1) by (unfold d1; lia). assert (0 < d2) by (unfold d2; lia).
  set (ez := Z.min (-1 + d1 - 53) (-1 + d2 - 53)).
  destruct (shl_align_down (Z.to_pos (Zpos p1 * 2 ^ (53 - d1)))
              (-1 + d1 - 53) ez) as (m1 & -> & Hm1'); [lia|].
  destruct (shl_align_down (Z.to_pos (Zpos p2 * 2 ^ (53 - d2)))
              (-1 + d2 - 53) ez) as (m2 & -> & Hm2'); [lia|].
  cbn [fst]. rewrite Hm1', Hm2', Hm1, Hm2.
  rewrite <- !Z.mul_assoc, <- !Z.pow_add_r by lia.
  replace (53 - d1 + (-1 + d1 - 53 - ez)) with (-1 - ez) by lia.
  replace (53 - d2 + (-1 + d2 - 53 - ez)) with (-1 - ez) by lia.
  rewrite !cond_Zopp_mul, <- Z.mul_add_distr_r.
  pose proof (binary_normalize_half _ (-1 - ez) Hsum ltac:(lia)) as Hn.
  replace (-1 - (-1 - ez)) with ez in Hn by lia. exact Hn.
Qed.

Lemma SFadd_half (h1 h2 : Z) :
  Z.abs h1 < 2 ^ 53 -> Z.abs h2 < 2 ^ 53 -> Z.abs (h1 + h2) < 2 ^ 53 ->
  SFadd prec emax (half_float h1) (half_float h2) = half_float (h1 + h2).
Proof.
  intros H1 H2 H12.
  destruct h1 as [|p1|p1], h2 as [|p2|p2]; try reflexivity.
  - apply (SFadd_canon false false p1 p2); simpl; lia.
  - apply (SFadd_canon false true p1 p2); simpl; lia.
  - apply (SFadd_canon true false p1 p2); simpl; lia.
  - apply (SFadd_canon true true p1 p2); simpl; lia.
Qed.

Lemma int_of_half_float (h : Z) :
  Z.abs h < 2 ^ 53 -> int_of_float (half_float h) = Ok (Z.quot h 2).
Proof.
  intros Hh.
  assert (Hcase : forall (s : bool) (p : positive), Zpos p < 2 ^ 53 ->
            int_of_float (canon s p (-1)) = Ok (cond_Zopp s (Zpos p / 2))).
  { intros s p Hp.
    assert (Hd : Zpos (digits2_pos p) <= 53) by (apply digits2_pos_le; lia).
    destruct (canon_mantissa p Hd) as [Hm _].
    unfold canon, int_of_float. set (d := Zpos (digits2_pos p)) in *.
    assert (0 < d) by (unfold d; lia).
    destruct (-1 + d - 53) as [|q|q] eqn:He; [lia|lia|].
    rewrite Z.shiftr_div_pow2 by lia. rewrite Hm.
    replace (Zpos q) with (54 - d) by lia.
    rewrite (pow2_succ (54 - d)) by lia.
    replace (54 - d - 1) with (53 - d) by lia.
    assert (0 < 2 ^ (53 - d)) by (apply Z.pow_pos_nonneg; lia).
    rewrite Z.div_mul_cancel_r by lia. done. }
  destruct h as [|p|p]; [done| |].
  - unfold half_float. rewrite Hcase by lia. simpl cond_Zopp.
    by rewrite Z.quot_div_nonneg by lia.
  - unfold half_float. rewrite Hcase by lia. simpl cond_Zopp.
    change (Zneg p) with (- Zpos p). rewrite Z.quot_opp_l by lia.
    by rewrite Z.quot_div_nonneg by lia.
Qed.

(** [int((index * cell) + (cell / 2))] is exact below 2^51. *)
Lemma cell_center_exact (index cell : Z) :
  Z.abs (index * cell) < 2 ^ 51 -> Z.abs cell < 2 ^ 51 ->
  cell_center index cell = Ok (Z.quot (2 * (index * cell) + cell) 2).
Proof.
  intros Ha Hc. unfold cell_center.
  rewrite int_truediv_half by lia. cbn [rbind].
  unfold int_add_float. rewrite float_of_int_half by lia. cbn [rbind].
  rewrite SFadd_half by lia. apply int_of_half_float. lia.
Qed.

(** ** Grid cells *)

Lemma default_size_key key cell component :
  default_size key cell component !! key =
    match component !! key with
    | None => Some (VInt cell)
    | Some v => if py_eqb v (VStr "auto") then Some VNone else Some v
    end.
Proof.
  unfold default_size. destruct (component !! key) as [v|] eqn:Hv.
  - destruct (py_eqb v (VStr "auto")); [|done]. by rewrite lookup_insert_eq.
  - by rewrite lookup_insert_eq.
Qed.

(** C3, as the code has it.  On a grid interface the cell is
    [size // columns] by [size // rows]; a component with the cell index
    [index] is in row [index // columns] and column [index % columns],
    and as long as the products stay below 2^51 the grid pass succeeds and
    sets [x = int(column*cell_w + cell_w/2)] and
    [y = int(row*cell_h + cell_h/2)], the centre of the cell truncated
    toward zero.  An unset width (height) becomes the cell width (height),
    one given as ["auto"] becomes [None] so that the component type's own
    default applies, any other is kept. *)
Theorem grid_cell_resolution (i : Interface) (component : dict)
    (cols rws index : Z) :
  display i = "grid" -> columns i = Some cols -> rows i = Some rws ->
  cols <> 0 -> rws <> 0 ->
  component !! "grid_cell" = Some (VInt index) ->
  let gw := fst (size i) / cols in
  let gh := snd (size i) / rws in
  let row := index / cols in
  let column := index mod cols in
  Z.abs (column * gw) < 2 ^ 51 -> Z.abs gw < 2 ^ 51 ->
  Z.abs (row * gh) < 2 ^ 51 -> Z.abs gh < 2 ^ 51 ->
  grid_cell_size i = Ok (Some gw, Some gh) /\
  exists component',
    parse_grid_values (display i) component (Some gw) (Some gh) (columns i)
      = Ok component' /\
    component' !! "x" = Some (VInt (Z.quot (2 * (column * gw) + gw) 2)) /\
    component' !! "y" = Some (VInt (Z.quot (2 * (row * gh) + gh) 2)) /\
    component' !! "width" =
      match component !! "width" with
      | None => Some (VInt gw)
      | Some v => if py_eqb v (VStr "auto") then Some VNone else Some v
      end /\
    component' !! "height" =
      match component !! "height" with
      | None => Some (VInt gh)
      | Some v => if py_eqb v (VStr "auto") then Some VNone else Some v
      end.
Proof.
  intros Hdisp Hcols Hrows Hc Hr Hcell gw gh row column Ha Hgw Hb Hgh.
  assert (Hc0 : Z.eqb cols 0 = false) by (by apply Z.eqb_neq).
  assert (Hr0 : Z.eqb rws 0 = false) by (by apply Z.eqb_neq).
  split.
  - unfold grid_cell_size. rewrite Hdisp, Hcols, Hrows. cbn.
    unfold py_floordiv. by rewrite Hc0, Hr0.
  - unfold parse_grid_values. rewrite Hdisp, Hcell, Hcols. cbn.
    unfold py_floordiv, py_mod. rewrite Hc0. cbn [rbind].
    fold row column.
    rewrite (cell_center_exact column gw) by done. cbn [rbind].
    rewrite (cell_center_exact row gh) by done. cbn [rbind].
    eexists. split; [reflexivity|]. repeat split.
    + rewrite !default_size_other by done.
      rewrite lookup_insert_ne by done. by rewrite lookup_insert_eq.
    + rewrite !default_size_other by done. by rewrite lookup_insert_eq.
    + rewrite default_size_other by done. rewrite default_size_key.
      by rewrite !lookup_insert_ne.
    + rewrite default_size_key. rewrite default_size_other by done.
      by rewrite !lookup_insert_ne.
Qed.

(** For cells that are not negative the truncation is a floor, and for
    an even cell size the position is the exact centre. *)
Lemma cell_center_floor (a g : Z) :
  0 <= a -> 0 <= g -> Z.quot (2 * a + g) 2 = a + g / 2.
Proof.
  intros Ha Hg. rewrite Z.quot_div_nonneg by lia.
  rewrite Z.add_comm, Z.mul_comm, Z.div_add by lia. lia.
Qed.

Lemma cell_center_even (a g : Z) :
  Z.even g = true -> 2 * Z.quot (2 * a + g) 2 = 2 * a + g.
Proof.
  intros [h ->]%Z.even_spec.
  replace (2 * a + 2 * h) with ((a + h) * 2) by lia.
  rewrite Z.quot_mul by lia. lia.
Qed.

(** Three columns, cell 4: row 1 and column 1, centred at (150, 150) in
    cells of 100 by 100; the width defaults to the cell's, the height
    given as ["auto"] is left to the component. *)
Example grid_cell_4 :
  (c <- parse_grid_values "grid" cell_4_component (Some 100) (Some 100) (Some 3) ;;
   Ok (c !! "x", c !! "y", c !! "width", c !! "height")) =
  Ok (Some (VInt 150), Some (VInt 150), Some (VInt 100), Some VNone) /\
  4 / 3 = 1 /\ 4 mod 3 = 1.
Proof. split; [vm_compute; reflexivity|done]. Qed.

Example odd_cell_center :
  (c <- parse_grid_values "grid" cell_0_component (Some 3) (Some 3) (Some 1) ;;
   Ok (c !! "x", c !! "y")) = Ok (Some (VInt 1), Some (VInt 1)).
Proof. vm_compute. reflexivity. Qed.

(** C3 as stated fails: in a cell 3 wide the centre is at 1.5, and the
    component is put at 1. *)
Lemma odd_cell_not_centered : ~ centered_as_specified cell_0_component 3 3 1.
Proof.
  intros (c' & index & x & y & Hi & Hc & Hx & Hy & Hcx & Hcy).
  pose proof odd_cell_center as H. rewrite Hc in H. cbn [rbind] in H.
  rewrite Hx in H. injection H as Hx1 _. subst x.
  vm_compute in Hi. injection Hi as <-. vm_compute in Hcx. discriminate Hcx.
Qed.

Lemma grid_cell_resolution_witness :
  (display grid_interface = "grid" /\ columns grid_interface = Some 3 /\
   rows grid_interface = Some 2 /\
   cell_4_component !! "grid_cell" = Some (VInt 4)) /\
  grid_cell_size grid_interface = Ok (Some 100, Some 100) /\
  exists component',
    parse_grid_values "grid" cell_4_component (Some 100) (Some 100) (Some 3)
      = Ok component' /\
    component' !! "x" = Some (VInt 150) /\
    component' !! "y" = Some (VInt 150) /\
    component' !! "width" = Some (VInt 100) /\
    component' !! "height" = Some VNone.
Proof.
  split; [repeat split; reflexivity|].
  exact (grid_cell_resolution grid_interface cell_4_component 3 2 4
           eq_refl eq_refl eq_refl ltac:(discriminate) ltac:(discriminate)
           eq_refl ltac:(vm_compute; reflexivity) ltac:(vm_compute; reflexivity)
           ltac:(vm_compute; reflexivity) ltac:(vm_compute; reflexivity)).
Defined.

(** * Further properties of the resolver *)

(** ** Style classes: what the merge leaves alone *)

Lemma apply_class_absorbed (cls component : dict) :
  (forall attr, is_Some (cls !! attr) -> is_Some (component !! attr)) ->
  apply_class cls component = component.
Proof.
  intros H. apply map_eq. intros attr. rewrite apply_class_lookup.
  destruct (component !! attr) as [v|] eqn:Hc; [done|].
  destruct (cls !! attr) as [w|] eqn:Hw; [|done].
  destruct (H attr) as [v Hv]; [by rewrite Hw|congruence].
Qed.

Lemma apply_classes_present classes styles component component' attr :
  apply_classes classes styles component = Ok component' ->
  is_Some (component !! attr) -> is_Some (component' !! attr).
Proof.
  intros H [v Hv]. exists v. by eapply apply_classes_keeps.
Qed.

(** After a merge every attribute of every known class that was listed
    is set. *)
Lemma apply_classes_saturates classes styles component component' :
  apply_classes classes styles component = Ok component' ->
  Forall (fun style =>
            exists found, find_class classes style = Ok found /\
              forall cls attr, found = Some cls -> is_Some (cls !! attr) ->
                               is_Some (component' !! attr)) styles.
Proof.
  revert component. induction styles as [|s rest IH]; intros component; simpl.
  - intros _. constructor.
  - destruct (find_class classes s) as [found|] eqn:Hs; [|done]. cbn [rbind].
    intros H. constructor; [|by eapply IH].
    exists found. split; [done|]. intros cls attr -> Hattr.
    eapply apply_classes_present; [exact H|].
    rewrite apply_class_lookup. destruct (component !! attr); [done|exact Hattr].
Qed.

Lemma apply_classes_saturated classes styles component :
  Forall (fun style =>
            exists found, find_class classes style = Ok found /\
              forall cls attr, found = Some cls -> is_Some (cls !! attr) ->
                               is_Some (component !! attr)) styles ->
  apply_classes classes styles component = Ok component.
Proof.
  induction 1 as [|s rest (found & Hs & Hfound) _ IH]; simpl; [done|].
  rewrite Hs. cbn [rbind]. destruct found as [cls|]; [|exact IH].
  rewrite apply_class_absorbed; [exact IH|]. intros attr. by apply Hfound.
Qed.

(** X1.  The style merge is idempotent: running it again on its own
    result changes nothing, whatever the style value is. *)
Theorem style_merge_idempotent (style_classes : option (gmap string dict))
    (component component' : dict) :
  parse_style_classes style_classes component = Ok component' ->
  parse_style_classes style_classes component' = Ok component'.
Proof.
  intros H. pose proof H as Hrun. revert H. unfold parse_style_classes.
  destruct (component !! "style") as [s|] eqn:Hstyle.
  - rewrite (parse_style_classes_keeps _ _ _ _ _ Hrun Hstyle).
    destruct style_classes as [classes|]; [|done].
    destruct (single_class classes s) as [cls|].
    + intros [= <-]. f_equal. apply apply_class_absorbed. intros attr Hattr.
      rewrite apply_class_lookup. by destruct (component !! attr).
    + destruct (style_items s) as [items|]; [|done]. cbn [rbind].
      destruct items as [|item items]; [done|].
      intros H. by apply apply_classes_saturated, (apply_classes_saturates _ _ component).
  - intros [= <-]. by rewrite Hstyle.
Qed.

Lemma style_merge_idempotent_witness :
  parse_style_classes (Some example_classes) styled_component
    = Ok merged_styled_component /\
  parse_style_classes (Some example_classes) merged_styled_component
    = Ok merged_styled_component.
Proof.
  split; [vm_compute; reflexivity|].
  apply (style_merge_idempotent (Some example_classes) styled_component).
  vm_compute. reflexivity.
Defined.

(** X2.  Class names that are not defined are passed over in silence: a
    component whose listed names are all unknown comes out unchanged, as
    does one that has no [style] key and any component of an interface
    without style classes. *)
Theorem unknown_styles_ignored (classes : gmap string dict) (component : dict)
    (names : list string) :
  component !! "style" = Some (VList (VStr <$> names)) ->
  (forall n, n ∈ names -> classes !! n = None) ->
  parse_style_classes (Some classes) component = Ok component /\
  parse_style_classes None component = Ok component /\
  parse_style_classes (Some classes) (delete "style" component)
    = Ok (delete "style" component).
Proof.
  intros Hstyle Hnames. unfold parse_style_classes.
  rewrite Hstyle, lookup_delete_eq. repeat split. cbn.
  destruct names as [|n names]; [done|].
  change (VStr n :: (VStr <$> names)) with (VStr <$> (n :: names)).
  apply apply_classes_saturated, Forall_fmap, Forall_forall.
  intros m Hm. exists None. simpl. split; [by rewrite Hnames|done].
Qed.

Lemma unknown_styles_ignored_witness :
  let component : dict := <["style" := VList [VStr "C"; VStr "D"]]> ∅ in
  parse_style_classes (Some example_classes) component = Ok component /\
  parse_style_classes None component = Ok component /\
  parse_style_classes (Some example_classes) (delete "style" component)
    = Ok (delete "style" component).
Proof.
  apply (unknown_styles_ignored example_classes _ ["C"; "D"]).
  - vm_compute. reflexivity.
  - intros n Hn. apply elem_of_cons in Hn as [->|Hn]; [vm_compute; reflexivity|].
    apply elem_of_cons in Hn as [->|Hn]; [vm_compute; reflexivity|].
    by apply elem_of_nil in Hn.
Defined.




(** ** Percentage values: what the pass leaves alone *)

Section PercentagePass.
Context {U : Util}.

Lemma resolve_percent_skip key base component :
  is_percentage component key = false ->
  resolve_percent key base component = Ok component.
Proof.
  unfold is_percentage, resolve_percent.
  destruct (component !! key) as [[| | |s| |]|]; try done.
  by intros ->.
Qed.

Lemma resolve_percent_hit key base component component' :
  resolve_percent key base component = Ok component' ->
  is_percentage component key = true ->
  exists s v, component !! key = Some (VStr s) /\
              str_contains "%" s = true /\
              percent_of base s = Ok v /\
              component' !! key = Some (VInt v).
Proof.
  unfold is_percentage. intros H Hp.
  destruct (component !! key) as [[| | |s| |]|] eqn:Hkey; try done.
  destruct (resolve_percent_key _ _ _ _ _ H Hkey Hp) as (v & Hv & Hl).
  by exists s, v.
Qed.

Lemma is_percentage_agree (c1 c2 : dict) key :
  c1 !! key = c2 !! key -> is_percentage c1 key = is_percentage c2 key.
Proof. unfold is_percentage. by intros ->. Qed.

Lemma dimension_keys_inv (k : string) :
  k ∈ dimension_keys -> k = "width" \/ k = "height" \/ k = "x" \/ k = "y".
Proof. unfold dimension_keys. set_solver. Qed.

Lemma dimension_keys_other (k : string) :
  k ∉ dimension_keys -> k <> "x" /\ k <> "y" /\ k <> "width" /\ k <> "height".
Proof. unfold dimension_keys. set_solver. Qed.

(** What a successful pass did to each key. *)
Lemma percentage_pass_inv sz component gw gh component' k :
  parse_percentage_values sz component gw gh = Ok component' ->
  if is_percentage component k && bool_decide (k ∈ dimension_keys)
  then exists s v, component !! k = Some (VStr s) /\
                   str_contains "%" s = true /\
                   percent_of (base_dimension sz component gw gh k) s = Ok v /\
                   component' !! k = Some (VInt v)
  else component' !! k = component !! k.
Proof.
  intros H. pose proof H as Hrun. unfold parse_percentage_values in H.
  destruct (resolve_percent "width" _ component) as [c1|] eqn:H1; [|done].
  cbn [rbind] in H.
  destruct (resolve_percent "height" _ c1) as [c2|] eqn:H2; [|done].
  cbn [rbind] in H.
  destruct (resolve_percent "x" _ c2) as [c3|] eqn:H3; [|done].
  cbn [rbind] in H. rename H into H4.
  destruct (bool_decide (k ∈ dimension_keys)) eqn:Hk.
  2:{ rewrite andb_false_r. apply bool_decide_eq_false in Hk.
      apply dimension_keys_other in Hk as (? & ? & ? & ?).
      by apply (parse_percentage_values_other _ _ _ _ _ _ Hrun). }
  rewrite andb_true_r. apply bool_decide_eq_true in Hk.
  assert (Hw : forall c : dict, c !! k = component !! k ->
                 is_percentage c k = is_percentage component k)
    by (intros c; apply is_percentage_agree).
  destruct (is_percentage component k) eqn:Hp.
  - assert (Hbw : forall key, key = "width" \/ key = "x" ->
              base_dimension sz component gw gh key =
                match component !! "grid_cell" with
                | Some _ => gw | None => Some (fst sz) end).
    { intros key [-> | ->]; unfold base_dimension;
        by destruct (component !! "grid_cell"). }
    assert (Hbh : forall key, key = "height" \/ key = "y" ->
              base_dimension sz component gw gh key =
                match component !! "grid_cell" with
                | Some _ => gh | None => Some (snd sz) end).
    { intros key [-> | ->]; unfold base_dimension;
        by destruct (component !! "grid_cell"). }
    destruct (dimension_keys_inv k Hk) as [-> | [-> | [-> | ->]]].
    + destruct (resolve_percent_hit _ _ _ _ H1 Hp) as (s & v & Hs & Hc & Hv & Hl).
      exists s, v. rewrite Hbw by tauto. repeat split; try done.
      rewrite (resolve_percent_other _ _ _ _ "width" H4) by done.
        rewrite (resolve_percent_other _ _ _ _ "width" H3) by done.
        by rewrite (resolve_percent_other _ _ _ _ "width" H2).
    + assert (Hc1 : c1 !! "height" = component !! "height")
        by (by apply (resolve_percent_other _ _ _ _ "height" H1)).
      destruct (resolve_percent_hit _ _ _ _ H2 (Hw c1 Hc1)) as (s & v & Hs & Hc & Hv & Hl).
      exists s, v. rewrite Hbh by tauto. repeat split; try done; [congruence|].
      rewrite (resolve_percent_other _ _ _ _ "height" H4) by done.
      by rewrite (resolve_percent_other _ _ _ _ "height" H3).
    + assert (Hc2 : c2 !! "x" = component !! "x").
      { rewrite (resolve_percent_other _ _ _ _ "x" H2) by done.
        by apply (resolve_percent_other _ _ _ _ "x" H1). }
      destruct (resolve_percent_hit _ _ _ _ H3 (Hw c2 Hc2)) as (s & v & Hs & Hc & Hv & Hl).
      exists s, v. rewrite Hbw by tauto. repeat split; try done; [congruence|].
      by rewrite (resolve_percent_other _ _ _ _ "x" H4).
    + assert (Hc3 : c3 !! "y" = component !! "y").
      { rewrite (resolve_percent_other _ _ _ _ "y" H3) by done.
        rewrite (resolve_percent_other _ _ _ _ "y" H2) by done.
        by apply (resolve_percent_other _ _ _ _ "y" H1). }
      destruct (resolve_percent_hit _ _ _ _ H4 (Hw c3 Hc3)) as (s & v & Hs & Hc & Hv & Hl).
      exists s, v. rewrite Hbh by tauto. repeat split; try done. congruence.
  - assert (Hskip : forall key base (c c' : dict),
              resolve_percent key base c = Ok c' ->
              c !! k = component !! k -> c' !! k = component !! k).
    { intros key base c c' Hr Hc. destruct (decide (k = key)) as [->|Hne].
      - rewrite resolve_percent_skip in Hr by (by apply Hw).
        by injection Hr as <-.
      - by rewrite (resolve_percent_other _ _ _ _ k Hr). }
    eapply Hskip; [exact H4|]. eapply Hskip; [exact H3|].
    eapply Hskip; [exact H2|]. eapply Hskip; [exact H1|]. done.
Qed.

Lemma percentage_pass_clean sz component gw gh component' :
  parse_percentage_values sz component gw gh = Ok component' ->
  no_percentage component'.
Proof.
  intros H key Hkey. pose proof (percentage_pass_inv _ _ _ _ _ key H) as Hk.
  rewrite (bool_decide_eq_true_2 _ Hkey), andb_true_r in Hk.
  destruct (is_percentage component key) eqn:Hp.
  - destruct Hk as (s & v & _ & _ & _ & Hl). unfold is_percentage. by rewrite Hl.
  - by rewrite (is_percentage_agree _ _ _ Hk).
Qed.

Lemma percentage_pass_skip sz component gw gh :
  no_percentage component ->
  parse_percentage_values sz component gw gh = Ok component.
Proof.
  intros Hno. unfold parse_percentage_values.
  assert (Hskip : forall key base, key ∈ dimension_keys ->
            resolve_percent key base component = Ok component)
    by (intros key base Hkey; by apply resolve_percent_skip, Hno).
  rewrite (Hskip "width") by (unfold dimension_keys; set_solver). cbn [rbind].
  rewrite (Hskip "height") by (unfold dimension_keys; set_solver). cbn [rbind].
  rewrite (Hskip "x") by (unfold dimension_keys; set_solver). cbn [rbind].
  apply Hskip. unfold dimension_keys; set_solver.
Qed.

(** X4.  The percentage pass touches nothing but percentage strings under
    [width], [height], [x] and [y]: each of those becomes an integer, and
    every other attribute, any of the four that is not a string
    containing a percent sign included, keeps the value it had. *)
Theorem percentage_frame (sz : Z * Z) (component component' : dict)
    (gw gh : option Z) :
  parse_percentage_values sz component gw gh = Ok component' ->
  forall k,
    (k ∈ dimension_keys /\ is_percentage component k = true /\
     exists v, component' !! k = Some (VInt v)) \/
    ((k ∉ dimension_keys \/ is_percentage component k = false) /\
     component' !! k = component !! k).
Proof.
  intros H k. pose proof (percentage_pass_inv _ _ _ _ _ k H) as Hk.
  destruct (is_percentage component k) eqn:Hp; cbn [andb] in Hk.
  - destruct (bool_decide (k ∈ dimension_keys)) eqn:Hd.
    + apply bool_decide_eq_true in Hd. left.
      destruct Hk as (s & v & _ & _ & _ & Hl). eauto.
    + apply bool_decide_eq_false in Hd. right. by split; [left|].
  - right. by split; [right|].
Qed.


(** X5.  The percentage pass is idempotent: its result holds no
    percentage string any more, and a component that holds none goes
    through unchanged whatever the base dimensions are, missing ones
    included. *)
Theorem percentage_idempotent (sz : Z * Z) (component component' : dict)
    (gw gh : option Z) :
  parse_percentage_values sz component gw gh = Ok component' ->
  no_percentage component' /\
  forall sz' gw' gh',
    parse_percentage_values sz' component' gw' gh' = Ok component'.
Proof.
  intros H. pose proof (percentage_pass_clean _ _ _ _ _ H) as Hno.
  split; [exact Hno|]. intros sz' gw' gh'. by apply percentage_pass_skip.
Qed.


Lemma resolve_percent_no_base key component :
  (forall s, component !! key = Some (VStr s) -> str_contains "%" s = true ->
             exists p, percent_to_float s = Ok p) ->
  resolve_percent key None component =
    if is_percentage component key then Err TypeError else Ok component.
Proof.
  unfold resolve_percent, is_percentage. intros H.
  destruct (component !! key) as [[| | |s| |]|]; try done.
  destruct (str_contains "%" s) eqn:Hs; [|done].
  destruct (H s eq_refl Hs) as [p Hp]. unfold percent_of. by rewrite Hp.
Qed.

Lemma percentage_pass_no_base sz component cell key :
  component !! "grid_cell" = Some cell ->
  key ∈ dimension_keys -> is_percentage component key = true ->
  (forall k s, k ∈ dimension_keys -> component !! k = Some (VStr s) ->
               str_contains "%" s = true ->
               exists p, percent_to_float s = Ok p) ->
  parse_percentage_values sz component None None = Err TypeError.
Proof.
  intros Hcell Hkey Hp Hconv. unfold parse_percentage_values. rewrite Hcell.
  assert (Hin : forall k : string, k = "width" \/ k = "height" \/ k = "x" \/ k = "y" ->
                  k ∈ dimension_keys) by (unfold dimension_keys; set_solver).
  rewrite (resolve_percent_no_base "width") by (intros s; apply Hconv, Hin; tauto).
  destruct (is_percentage component "width") eqn:Hw; [done|]. cbn [rbind].
  rewrite (resolve_percent_no_base "height") by (intros s; apply Hconv, Hin; tauto).
  destruct (is_percentage component "height") eqn:Hh; [done|]. cbn [rbind].
  rewrite (resolve_percent_no_base "x") by (intros s; apply Hconv, Hin; tauto).
  destruct (is_percentage component "x") eqn:Hx; [done|]. cbn [rbind].
  rewrite (resolve_percent_no_base "y") by (intros s; apply Hconv, Hin; tauto).
  destruct (is_percentage component "y") eqn:Hy; [done|].
  destruct (dimension_keys_inv key Hkey) as [-> | [-> | [-> | ->]]]; congruence.
Qed.

End PercentagePass.

Lemma percentage_frame_witness :
  let component' : dict := <["width" := VInt 320]> half_width_component in
  parse_percentage_values (U := util_model) (640, 480) half_width_component
    None None = Ok component' /\
  forall k,
    (k ∈ dimension_keys /\ is_percentage half_width_component k = true /\
     exists v, component' !! k = Some (VInt v)) \/
    ((k ∉ dimension_keys \/ is_percentage half_width_component k = false) /\
     component' !! k = half_width_component !! k).
Proof.
  split; [vm_compute; reflexivity|].
  apply (percentage_frame (U := util_model) (640, 480) half_width_component _
           None None).
  vm_compute. reflexivity.
Defined.

Lemma percentage_idempotent_witness :
  let component' : dict := <["width" := VInt 320]> half_width_component in
  parse_percentage_values (U := util_model) (640, 480) half_width_component
    None None = Ok component' /\
  no_percentage component' /\
  forall sz' gw' gh',
    parse_percentage_values (U := util_model) sz' component' gw' gh'
      = Ok component'.
Proof.
  split; [vm_compute; reflexivity|].
  apply (percentage_idempotent (U := util_model) (640, 480)
           half_width_component _ None None).
  vm_compute. reflexivity.
Defined.

Section PercentageOffGrid.
Context {U : Util} {CM : ConversionMapping}.

(** X6.  A percentage is taken of the grid cell whenever the component
    has a [grid_cell] key, also on an interface that is no grid, where
    there is no cell: such a component with a percentage attribute makes
    the construction loop fail with a [TypeError]. *)
Theorem percentage_off_grid (i : Interface) (component : dict)
    (rest : list dict) (index : pyval) (key : string) :
  display i <> "grid" ->
  component !! "style" = None ->
  component !! "grid_cell" = Some index ->
  key ∈ dimension_keys -> is_percentage component key = true ->
  (forall k s, k ∈ dimension_keys -> component !! k = Some (VStr s) ->
               str_contains "%" s = true ->
               exists p, percent_to_float s = Ok p) ->
  grid_cell_size i = Ok (None, None) /\
  _parse_components (component :: rest) i = Err TypeError.
Proof.
  intros Hdisp Hstyle Hcell Hkey Hp Hconv.
  assert (Hsize : grid_cell_size i = Ok (None, None)).
  { unfold grid_cell_size. by destruct (String.eqb_spec (display i) "grid"). }
  split; [exact Hsize|].
  unfold _parse_components. rewrite Hsize. cbn [rbind fst snd parse_each].
  unfold parse_component, resolve_component, parse_style_classes.
  rewrite Hstyle. cbn [rbind].
  by rewrite (percentage_pass_no_base _ _ index key).
Qed.

End PercentageOffGrid.

Lemma percentage_off_grid_witness :
  grid_cell_size (overlay_interface) = Ok (None, None) /\
  _parse_components (U := util_model) (CM := conversion_model)
    [misplaced_component] overlay_interface = Err TypeError.
Proof.
  apply (percentage_off_grid (U := util_model) (CM := conversion_model)
           overlay_interface misplaced_component [] (VInt 0) "width").
  - vm_compute. discriminate.
  - vm_compute. reflexivity.
  - vm_compute. reflexivity.
  - unfold dimension_keys. apply elem_of_cons. by left.
  - vm_compute. reflexivity.
  - intros k s Hk Hs Hc.
    apply dimension_keys_inv in Hk as [-> | [-> | [-> | ->]]];
      vm_compute in Hs; try discriminate.
    injection Hs as <-. eexists. vm_compute. reflexivity.
Defined.

(** ** Percentages that are powers of two *)

Lemma int_of_canon (s : bool) (p : positive) (e : Z) :
  Zpos p < 2 ^ 53 -> e <= 0 ->
  int_of_float (canon s p e) = Ok (cond_Zopp s (Zpos p / 2 ^ (- e))).
Proof.
  intros Hp He.
  assert (Hd : Zpos (digits2_pos p) <= 53) by (apply digits2_pos_le; lia).
  destruct (canon_mantissa p Hd) as [Hm _].
  unfold canon, int_of_float. set (d := Zpos (digits2_pos p)) in *.
  assert (0 < d) by (unfold d; lia).
  assert (0 < 2 ^ (53 - d)) by (apply Z.pow_pos_nonneg; lia).
  assert (0 < 2 ^ (- e)) by (apply Z.pow_pos_nonneg; lia).
  destruct (e + d - 53) as [|q|q] eqn:Hq; [|lia|].
  - rewrite Z.shiftl_0_r, Hm. do 2 f_equal.
    replace (53 - d) with 0 by lia. replace (- e) with 0 by lia.
    rewrite Z.pow_0_r, Z.div_1_r. lia.
  - rewrite Z.shiftr_div_pow2 by lia. rewrite Hm. do 2 f_equal.
    replace (Zpos q) with (- e + (53 - d)) by lia.
    rewrite Z.pow_add_r by lia.
    rewrite Z.div_mul_cancel_r by lia. done.
Qed.

Lemma SFmul_pow2 (s : bool) (p : positive) (e n : Z) :
  Zpos p < 2 ^ 53 ->
  -1074 <= e + Zpos (digits2_pos p) - 53 - n <= 971 ->
  SFmul prec emax (canon s p e) (float_pow2 n) = canon s p (e - n).
Proof.
  intros Hp He.
  assert (Hd : Zpos (digits2_pos p) <= 53) by (apply digits2_pos_le; lia).
  destruct (canon_mantissa p Hd) as [Hm Hm53].
  unfold canon, float_pow2, SFmul. set (d := Zpos (digits2_pos p)) in *.
  set (m := Z.to_pos (Zpos p * 2 ^ (53 - d))) in *.
  rewrite xorb_false_r.
  rewrite (binary_round_aux_exact s m (m * 4503599627370496) 52);
    [f_equal; lia|exact Hm53|lia|lia|].
  by rewrite Pos2Z.inj_mul.
Qed.

(** [int(b * 2^-n)] is the quotient of [b] by [2^n], truncated toward
    zero, with no rounding error. *)
Lemma int_mul_pow2 (b n : Z) :
  Z.abs b < 2 ^ 52 -> 0 <= n <= 1000 ->
  (f <- int_mul_float b (float_pow2 n) ;; int_of_float f)
    = Ok (Z.quot b (2 ^ n)).
Proof.
  intros Hb Hn. unfold int_mul_float.
  rewrite float_of_int_half by done. cbn [rbind].
  assert (0 < 2 ^ n) by (apply Z.pow_pos_nonneg; lia).
  assert (Hcase : forall (s : bool) (p : positive), Zpos p < 2 ^ 52 ->
            int_of_float (SFmul prec emax (canon s p~0 (-1)) (float_pow2 n))
            = Ok (cond_Zopp s (Zpos p / 2 ^ n))).
  { intros s p Hp.
    assert (Hp0 : Zpos p~0 < 2 ^ 53) by (change (2 ^ 53) with (2 * 2 ^ 52); lia).
    assert (Hd : Zpos (digits2_pos p~0) <= 53) by (apply digits2_pos_le; lia).
    assert (0 < Zpos (digits2_pos p~0)) by lia.
    rewrite SFmul_pow2 by lia. rewrite int_of_canon by lia.
    do 2 f_equal. replace (- (-1 - n)) with (1 + n) by lia.
    rewrite Z.pow_add_r by lia. change (2 ^ 1) with 2.
    change (Zpos p~0) with (2 * Zpos p).
    by rewrite Z.div_mul_cancel_l by lia. }
  destruct b as [|p|p].
  - cbn. by rewrite Z.quot_0_l by lia.
  - change (half_float (2 * Zpos p)) with (canon false p~0 (-1)).
    rewrite Hcase by lia. cbn [cond_Zopp].
    by rewrite Z.quot_div_nonneg by lia.
  - change (half_float (2 * Zneg p)) with (canon true p~0 (-1)).
    rewrite Hcase by lia. cbn [cond_Zopp].
    change (Zneg p) with (- Zpos p). rewrite Z.quot_opp_l by lia.
    by rewrite Z.quot_div_nonneg by lia.
Qed.

Section PercentagePowers.
Context {U : Util}.

(** X7.  A percentage whose float is a power of two (100%, 50%, 25%,
    ...) is resolved without rounding error: for a base dimension below
    2^52 the attribute becomes the base divided by that power of two,
    truncated toward zero; 100% gives the base itself. *)
Theorem percentage_power_of_two (sz : Z * Z) (component component' : dict)
    (gw gh : option Z) (key s : string) (n base : Z) :
  parse_percentage_values sz component gw gh = Ok component' ->
  key ∈ dimension_keys ->
  component !! key = Some (VStr s) -> str_contains "%" s = true ->
  percent_to_float s = Ok (float_pow2 n) -> 0 <= n <= 1000 ->
  base_dimension sz component gw gh key = Some base ->
  Z.abs base < 2 ^ 52 ->
  component' !! key = Some (VInt (Z.quot base (2 ^ n))).
Proof.
  intros H Hkey Hs Hc Hp Hn Hbase Hb.
  pose proof (percentage_pass_inv _ _ _ _ _ key H) as Hk.
  rewrite (bool_decide_eq_true_2 _ Hkey), andb_true_r in Hk.
  unfold is_percentage in Hk. rewrite Hs, Hc in Hk.
  destruct Hk as (s' & v & [= <-] & _ & Hv & ->).
  rewrite Hbase in Hv. unfold percent_of in Hv. rewrite Hp in Hv.
  cbn [rbind require_int] in Hv. rewrite int_mul_pow2 in Hv by done.
  by injection Hv as <-.
Qed.

End PercentagePowers.

Lemma percentage_power_of_two_witness :
  let component' : dict := <["width" := VInt 160]> quarter_width_component in
  parse_percentage_values (U := util_model) (640, 480) quarter_width_component
    None None = Ok component' /\
  component' !! "width" = Some (VInt (Z.quot 640 (2 ^ 2))).
Proof.
  split; [vm_compute; reflexivity|].
  apply (percentage_power_of_two (U := util_model) (640, 480)
           quarter_width_component _ None None "width" "25%" 2 640).
  - vm_compute. reflexivity.
  - unfold dimension_keys. apply elem_of_cons. by left.
  - vm_compute. reflexivity.
  - vm_compute. reflexivity.
  - vm_compute. reflexivity.
  - lia.
  - vm_compute. reflexivity.
  - vm_compute. reflexivity.
Defined.

(** ** Grid cells: where the pass puts a component *)

(** X8.  On a grid, a component with a cell index is placed by the cell
    alone: an [x] or [y] it declares is overwritten, so the outcome of
    the grid pass does not depend on it. *)
Theorem grid_overrides_position (component : dict) (gw gh cols : option Z)
    (key : string) (v : pyval) :
  is_Some (component !! "grid_cell") -> key = "x" \/ key = "y" ->
  parse_grid_values "grid" (<[key := v]> component) gw gh cols =
  parse_grid_values "grid" component gw gh cols.
Proof.
  intros [cell Hcell] Hkey. unfold parse_grid_values. cbn [String.eqb negb].
  change (negb (String.eqb "grid" "grid")) with false. cbv iota.
  rewrite lookup_insert_ne by (destruct Hkey as [-> | ->]; done).
  rewrite Hcell.
  destruct (int_operand cell) as [index|]; [|done]. cbn [rbind].
  destruct (require_int cols) as [cs|]; [|done]. cbn [rbind].
  destruct (py_floordiv index cs) as [row|]; [|done]. cbn [rbind].
  destruct (py_mod index cs) as [column|]; [|done]. cbn [rbind].
  destruct (require_int gw) as [w|]; [|done]. cbn [rbind].
  destruct (cell_center column w) as [x|]; [|done]. cbn [rbind].
  destruct (require_int gh) as [h|]; [|done]. cbn [rbind].
  destruct (cell_center row h) as [y|]; [|done]. cbn [rbind].
  do 3 f_equal. destruct Hkey as [-> | ->].
  - by rewrite insert_insert_eq.
  - rewrite (insert_insert_ne _ "x" "y") by done. by rewrite insert_insert_eq.
Qed.

Lemma grid_overrides_position_witness :
  parse_grid_values "grid" (<["x" := VInt 7]> cell_4_component)
    (Some 100) (Some 100) (Some 3) =
  parse_grid_values "grid" cell_4_component (Some 100) (Some 100) (Some 3).
Proof.
  apply (grid_overrides_position cell_4_component).
  - exists (VInt 4). vm_compute. reflexivity.
  - by left.
Defined.

Section GridSettings.
Context {U : Util} {CM : ConversionMapping}.

(** X9.  A grid interface needs its rows and columns: the components are
    parsed only when both are given and are not zero.  Without columns
    (or, columns being fine, without rows) the loop raises [TypeError]
    before it looks at a component, with zero columns (or rows)
    [ZeroDivisionError]. *)
Theorem grid_needs_rows_and_columns (i : Interface) (ds : list dict) :
  display i = "grid" ->
  match _parse_components ds i with
  | Ok _ => exists r c, rows i = Some r /\ columns i = Some c /\
                        r <> 0 /\ c <> 0
  | Err e =>
      (columns i = None -> e = TypeError) /\
      (columns i = Some 0 -> e = ZeroDivisionError) /\
      (forall c, columns i = Some c -> c <> 0 ->
         (rows i = None -> e = TypeError) /\
         (rows i = Some 0 -> e = ZeroDivisionError))
  end.
Proof.
  intros Hdisp. unfold _parse_components, grid_cell_size. rewrite Hdisp.
  change (String.eqb "grid" "grid") with true. cbv iota.
  destruct (columns i) as [c|]; cbn [rbind require_int].
  2:{ repeat split; intros; congruence. }
  unfold py_floordiv at 1. destruct (Z.eqb_spec c 0) as [->|Hc]; cbn [rbind].
  { repeat split; intros; congruence. }
  destruct (rows i) as [r|]; cbn [rbind require_int].
  2:{ repeat split; intros; congruence. }
  unfold py_floordiv. destruct (Z.eqb_spec r 0) as [->|Hr]; cbn [rbind].
  { repeat split; intros; congruence. }
  cbn [fst snd].
  destruct (parse_each _ _ ds i) as [i'|e].
  - by exists r, c.
  - repeat split; intros; congruence.
Qed.

End GridSettings.

Lemma grid_needs_rows_and_columns_witness :
  display columnless_interface = "grid" /\
  _parse_components (U := util_model) (CM := conversion_model) []
    columnless_interface = Err TypeError.
Proof.
  split; [reflexivity|].
  pose proof (grid_needs_rows_and_columns (U := util_model)
                (CM := conversion_model) columnless_interface [] eq_refl) as H.
  destruct (_parse_components [] columnless_interface) as [i'|e].
  - destruct H as (r & c & _ & Hc & _). discriminate Hc.
  - destruct H as (H & _). by rewrite (H eq_refl).
Defined.

(** The position the grid pass computes while the arithmetic is exact. *)
Lemma grid_position (disp : string) (component : dict) (gw gh cols index : Z) :
  disp = "grid" -> cols <> 0 ->
  component !! "grid_cell" = Some (VInt index) ->
  Z.abs ((index mod cols) * gw) < 2 ^ 51 -> Z.abs gw < 2 ^ 51 ->
  Z.abs ((index / cols) * gh) < 2 ^ 51 -> Z.abs gh < 2 ^ 51 ->
  exists component',
    parse_grid_values disp component (Some gw) (Some gh) (Some cols)
      = Ok component' /\
    component' !! "x"
      = Some (VInt (Z.quot (2 * ((index mod cols) * gw) + gw) 2)) /\
    component' !! "y"
      = Some (VInt (Z.quot (2 * ((index / cols) * gh) + gh) 2)).
Proof.
  intros -> Hc Hcell Ha Hgw Hb Hgh.
  assert (Hc0 : Z.eqb cols 0 = false) by (by apply Z.eqb_neq).
  unfold parse_grid_values. rewrite Hcell. cbn.
  unfold py_floordiv, py_mod. rewrite Hc0. cbn [rbind].
  rewrite (cell_center_exact _ gw) by done. cbn [rbind].
  rewrite (cell_center_exact _ gh) by done. cbn [rbind].
  eexists. split; [reflexivity|]. split.
  - rewrite !default_size_other by done.
    rewrite lookup_insert_ne by done. by rewrite lookup_insert_eq.
  - rewrite !default_size_other by done. by rewrite lookup_insert_eq.
Qed.

(** X10.  On a grid of [cols] by [rws] cells in an interface smaller than
    2^51 pixels, every cell index from [0] to [rws*cols - 1] is placed:
    the position lies within the component's own cell, and so within the
    interface. *)
Theorem grid_cell_inside (i : Interface) (component : dict)
    (cols rws index : Z) :
  display i = "grid" -> columns i = Some cols -> rows i = Some rws ->
  0 < cols -> 0 < rws ->
  0 <= fst (size i) < 2 ^ 51 -> 0 <= snd (size i) < 2 ^ 51 ->
  component !! "grid_cell" = Some (VInt index) ->
  0 <= index < rws * cols ->
  let gw := fst (size i) / cols in
  let gh := snd (size i) / rws in
  let row := index / cols in
  let column := index mod cols in
  exists component' x y,
    parse_grid_values (display i) component (Some gw) (Some gh) (columns i)
      = Ok component' /\
    component' !! "x" = Some (VInt x) /\
    component' !! "y" = Some (VInt y) /\
    (0 <= column < cols /\ 0 <= row < rws) /\
    (column * gw <= x <= column * gw + gw /\ row * gh <= y <= row * gh + gh) /\
    (0 <= x <= fst (size i) /\ 0 <= y <= snd (size i)).
Proof.
  intros Hdisp Hcols Hrows Hc Hr Hw Hh Hcell Hindex gw gh row column.
  set (W := fst (size i)) in *. set (H := snd (size i)) in *.
  assert (Hgw : 0 <= gw /\ cols * gw <= W).
  { split; [apply Z.div_pos; lia|apply Z.mul_div_le; lia]. }
  assert (Hgh : 0 <= gh /\ rws * gh <= H).
  { split; [apply Z.div_pos; lia|apply Z.mul_div_le; lia]. }
  assert (Hcolumn : 0 <= column < cols) by (apply Z.mod_pos_bound; lia).
  assert (Hrow : 0 <= row < rws).
  { split; [apply Z.div_pos; lia|apply Z.div_lt_upper_bound; lia]. }
  assert (Hcw : 0 <= column * gw /\ column * gw + gw <= W) by nia.
  assert (Hrh : 0 <= row * gh /\ row * gh + gh <= H) by nia.
  assert (Hgw2 : 0 <= gw / 2 <= gw).
  { split; [apply Z.div_pos; lia|apply Z.div_le_upper_bound; lia]. }
  assert (Hgh2 : 0 <= gh / 2 <= gh).
  { split; [apply Z.div_pos; lia|apply Z.div_le_upper_bound; lia]. }
  destruct (grid_position (display i) component gw gh cols index)
    as (c' & Hc' & Hx & Hy); try done; try lia.
  rewrite Hcols. exists c', (column * gw + gw / 2), (row * gh + gh / 2).
  rewrite <- !cell_center_floor by lia.
  repeat split; try done; rewrite ?cell_center_floor by lia; lia.
Qed.

Lemma grid_cell_inside_witness :
  exists component' x y,
    parse_grid_values (display grid_interface) cell_4_component
      (Some (300 / 3)) (Some (200 / 2)) (columns grid_interface)
      = Ok component' /\
    component' !! "x" = Some (VInt x) /\
    component' !! "y" = Some (VInt y) /\
    (0 <= 4 mod 3 < 3 /\ 0 <= 4 / 3 < 2) /\
    (4 mod 3 * (300 / 3) <= x <= 4 mod 3 * (300 / 3) + 300 / 3 /\
     4 / 3 * (200 / 2) <= y <= 4 / 3 * (200 / 2) + 200 / 2) /\
    (0 <= x <= 300 /\ 0 <= y <= 200).
Proof.
  apply (grid_cell_inside grid_interface cell_4_component 3 2 4).
  - reflexivity.
  - reflexivity.
  - reflexivity.
  - lia.
  - lia.
  - simpl. lia.
  - simpl. lia.
  - vm_compute. reflexivity.
  - lia.
Defined.

(** * Further properties of the construction *)

Section ResolvedComponent.
Context {U : Util} {CM : ConversionMapping}.

(** X11.  What the constructor is handed: always an [id], a [pos] that
    is the pair of the resolved [x] and [y] and a [size] that is the pair
    of the resolved [width] and [height], [None] standing for a missing
    one; every other declared attribute is passed on as it is. *)
Theorem resolved_position_and_size (i : Interface) (gw gh : option Z)
    (d kwargs : dict) :
  resolve_component i gw gh d = Ok kwargs ->
  is_Some (kwargs !! "id") /\
  kwargs !! "pos" = Some (VTuple [dict_get kwargs "x"; dict_get kwargs "y"]) /\
  kwargs !! "size"
    = Some (VTuple [dict_get kwargs "width"; dict_get kwargs "height"]) /\
  forall attr v,
    d !! attr = Some v ->
    attr ∉ ["x"; "y"; "width"; "height"; "pos"; "size"] ->
    kwargs !! attr = Some v.
Proof.
  unfold resolve_component.
  destruct (parse_style_classes _ d) as [c1|] eqn:H1; [|done]. cbn [rbind].
  destruct (parse_percentage_values _ c1 gw gh) as [c2|] eqn:H2; [|done].
  cbn [rbind].
  destruct (parse_grid_values _ c2 gw gh _) as [c3|] eqn:H3; [|done].
  cbn [rbind]. intros [= <-].
  set (c4 := match c3 !! "id" with
             | Some _ => c3
             | None => <["id" := VStr "_"]> c3
             end).
  repeat split.
  - rewrite (lookup_insert_ne _ "size" "id"), (lookup_insert_ne _ "pos" "id")
      by done.
    unfold c4. destruct (c3 !! "id") as [v|] eqn:Hid; [by rewrite Hid|].
    by rewrite lookup_insert_eq.
  - rewrite (lookup_insert_ne _ "size" "pos") by done.
    rewrite lookup_insert_eq. unfold dict_get.
    rewrite !(lookup_insert_ne _ "size") by done.
    by rewrite !(lookup_insert_ne _ "pos") by done.
  - rewrite lookup_insert_eq. unfold dict_get.
    by rewrite !(lookup_insert_ne _ "size") by done.
  - intros attr v Hd Hattr.
    assert (attr <> "x" /\ attr <> "y" /\ attr <> "width" /\ attr <> "height"
            /\ attr <> "pos" /\ attr <> "size") as (? & ? & ? & ? & ? & ?)
      by set_solver.
    rewrite (lookup_insert_ne _ "size" attr), (lookup_insert_ne _ "pos" attr)
      by done.
    assert (Hc3 : c3 !! attr = Some v).
    { rewrite (parse_grid_values_other _ _ _ _ _ _ attr H3) by done.
      rewrite (parse_percentage_values_other _ _ _ _ _ attr H2) by done.
      by apply (parse_style_classes_keeps _ _ _ _ _ H1). }
    unfold c4. destruct (c3 !! "id") as [w|] eqn:Hid; [done|].
    destruct (decide (attr = "id")) as [->|Hne]; [congruence|].
    by rewrite lookup_insert_ne.
Qed.

End ResolvedComponent.

Lemma resolved_position_and_size_witness :
  let kwargs : dict :=
    <["size" := VTuple [VInt 320; VNone]]>
      (<["pos" := VTuple [VNone; VNone]]>
         (<["id" := VStr "_"]> (<["width" := VInt 320]> half_width_component))) in
  resolve_component (U := util_model) overlay_interface None None
    half_width_component = Ok kwargs /\
  is_Some (kwargs !! "id") /\
  kwargs !! "pos" = Some (VTuple [dict_get kwargs "x"; dict_get kwargs "y"]) /\
  kwargs !! "size"
    = Some (VTuple [dict_get kwargs "width"; dict_get kwargs "height"]) /\
  forall attr v,
    half_width_component !! attr = Some v ->
    attr ∉ ["x"; "y"; "width"; "height"; "pos"; "size"] ->
    kwargs !! attr = Some v.
Proof.
  split; [vm_compute; reflexivity|].
  apply (resolved_position_and_size (U := util_model) overlay_interface
           None None half_width_component).
  vm_compute. reflexivity.
Defined.

(** ** The groups after construction *)

Section GroupOrder.
Context {U : Util} {CM : ConversionMapping}.

Lemma register_component_keys c i i' :
  register_component c i = Ok i' ->
  fst <$> _component_type_groups i' =
    if decide (c_type c ∈ fst <$> _component_type_groups i)
    then fst <$> _component_type_groups i
    else (fst <$> _component_type_groups i) ++ [c_type c].
Proof.
  unfold register_component.
  destruct (odict_get (c_type c) (_component_type_groups i)) as [g0|] eqn:Hg0.
  - rewrite Hg0. intros [= <-]. cbn [_component_type_groups set_components].
    rewrite odict_set_keys.
    destruct (decide (c_type c ∈ fst <$> _component_type_groups i)) as [|Hn];
      [done|].
    apply odict_get_keys in Hn. congruence.
  - rewrite odict_get_set. destruct (decide (c_type c = c_type c)); [|done].
    intros [= <-]. cbn [_component_type_groups set_components].
    apply odict_get_keys in Hg0. rewrite !odict_set_keys.
    destruct (decide (c_type c ∈ fst <$> _component_type_groups i)); [done|].
    destruct (decide (c_type c ∈ (fst <$> _component_type_groups i) ++ [c_type c]))
      as [|Hn]; [done|].
    exfalso. apply Hn. set_solver.
Qed.

Lemma group_class_new c : g_class (new_type_group c) = group_class_for c.
Proof. done. Qed.

Lemma register_component_well_grouped c i i' :
  well_grouped i -> c_obj c = length (_components i) ->
  register_component c i = Ok i' -> well_grouped i'.
Proof.
  intros (Hobj & Hmain & Hkeys & Htypes) Hc Hreg.
  pose proof (register_component_keys _ _ _ Hreg) as Hk.
  apply register_component_inv in Hreg
    as (g & Hg & Hsome & Hnone & Hcs & Hgroup & Hget & _).
  assert (Hfresh : forall c', c' ∈ _components i -> c_obj c' <> c_obj c).
  { intros c' Hc' Heq.
    assert (c_obj c' ∈ seq 0 (length (_components i))) as Hin
      by (rewrite <- Hobj; by apply list_elem_of_fmap_2).
    apply elem_of_seq in Hin. lia. }
  unfold well_grouped. rewrite Hcs, length_app. cbn [length].
  rewrite Nat.add_1_r, seq_S, fmap_app, Hobj. cbn [fmap list_fmap].
  rewrite Hc. repeat split.
  - rewrite Hgroup, Hmain, Hc.
    destruct (decide (length (_components i) ∈ seq 0 (length (_components i))))
      as [Hin|]; [|done].
    apply elem_of_seq in Hin. lia.
  - rewrite Hk.
    destruct (decide (c_type c ∈ fst <$> _component_type_groups i)) as [|Hn];
      [done|].
    apply NoDup_app. repeat split; [done| |apply NoDup_singleton].
    intros t Ht Ht'. apply list_elem_of_singleton in Ht'. by subst t.
  - intros t. specialize (Htypes t). rewrite Hget. unfold of_type in *.
    rewrite filter_app, (filter_cons _ c []), filter_nil.
    destruct (decide (c_type c = t)) as [Ht|Ht].
    + destruct (filter (fun c0 => c_type c0 = t) (_components i))
        as [|c0 rest] eqn:Hf.
      * cbn [app]. rewrite Ht in Hnone, Hg. specialize (Hnone Htypes).
        exists (group_add (c_obj c) g). subst g. by repeat split.
      * destruct Htypes as (g0 & Hg0 & Hm0 & Hcls0).
        rewrite Ht in Hsome. specialize (Hsome g0 Hg0). subst g0.
        exists (group_add (c_obj c) g). split; [done|]. split; [|done].
        cbn [group_add g_members].
        destruct (decide (c_obj c ∈ g_members g)) as [Hin|_].
        -- exfalso. rewrite Hm0 in Hin.
           apply list_elem_of_fmap in Hin as (c' & Heq & Hc').
           rewrite <- Hf in Hc'. apply list_elem_of_filter in Hc' as [_ Hc'].
           by apply (Hfresh c' Hc').
        -- rewrite Hm0. change (c0 :: rest ++ [c]) with ((c0 :: rest) ++ [c]).
           rewrite fmap_app. cbn. by rewrite Hc.
    + rewrite app_nil_r. exact Htypes.
Qed.

Lemma parse_component_well_grouped gw gh i d i' :
  well_grouped i -> parse_component gw gh i d = Ok i' -> well_grouped i'.
Proof.
  intros Hi (kwargs & type_ & c & _ & _ & Hc & Hreg)%parse_component_inv.
  apply convert_component_inv in Hc as (Hobj & _).
  by eapply register_component_well_grouped.
Qed.

Lemma parse_each_well_grouped gw gh ds i i' :
  well_grouped i -> parse_each gw gh ds i = Ok i' -> well_grouped i'.
Proof.
  revert i. induction ds as [|d ds IH]; intros i Hi; simpl.
  - by intros [= <-].
  - destruct (parse_component gw gh i d) as [i1|] eqn:H1; [|done]. simpl.
    apply IH. by eapply parse_component_well_grouped.
Qed.

Lemma parse_component_parent gw gh i d i' :
  parse_component gw gh i d = Ok i' -> parent i' = parent i.
Proof.
  intros (kwargs & type_ & c & _ & _ & _ & Hreg)%parse_component_inv.
  unfold register_component in Hreg.
  destruct (odict_get (c_type c) _) as [g|]; [|done]. by injection Hreg as <-.
Qed.

Lemma parse_each_parent gw gh ds i i' :
  parse_each gw gh ds i = Ok i' -> parent i' = parent i.
Proof.
  revert i. induction ds as [|d ds IH]; intros i; simpl.
  - by intros [= <-].
  - destruct (parse_component gw gh i d) as [i1|] eqn:H1; [|done]. simpl.
    intros H. rewrite (IH _ H). by eapply parse_component_parent.
Qed.

End GroupOrder.

Section Constructed.
Context {U : Util} {CM : ConversionMapping} {P : Pygame}.

Lemma init_well_grouped nm bg sz ds disp rws cols par styles i :
  init nm bg sz ds disp rws cols par styles = Ok i ->
  well_grouped i /\ length (_components i) = length ds.
Proof.
  intros (i0 & Hc & Hg & Hm & _ & _ & _ & _ & _ & _ & Hparse)%init_inv.
  unfold _parse_components in Hparse.
  destruct (grid_cell_size i0) as [[gw gh]|]; [|done].
  cbn [rbind fst snd] in Hparse. split.
  - eapply parse_each_well_grouped; [|exact Hparse].
    unfold well_grouped, of_type. rewrite Hc, Hg, Hm. repeat split; try done.
    constructor.
  - destruct (parse_each_positions _ _ _ _ _ Hparse) as [(cs & Hcs & Hlen) _].
    rewrite Hcs, Hc. exact Hlen.
Qed.

(** X12.  Construction stores its arguments as they are given: parsing
    the background and the components changes neither the name, the
    size, the display mode, the rows and columns, the parent nor the
    style classes; the new interface has no subgroup, and one component
    for each dictionary. *)
Theorem construction_keeps_settings nm bg sz ds disp rws cols par styles i :
  init nm bg sz ds disp rws cols par styles = Ok i ->
  name i = nm /\ size i = sz /\ display i = disp /\ rows i = rws /\
  columns i = cols /\ parent i = par /\ _style_classes i = styles /\
  _subgroups i = [] /\ length (_components i) = length ds.
Proof.
  intros H. pose proof (init_well_grouped _ _ _ _ _ _ _ _ _ _ H) as [_ Hlen].
  unfold init in H.
  destruct (_parse_background bg _) as [i0|] eqn:Hbg; [|done]. cbn [rbind] in H.
  apply parse_background_inv in Hbg as (color & image & ->).
  pose proof (parse_components_settings _ _ _ H)
    as (Hn & Hd & Hr & Hc & Hs & Hst & _ & _ & Hb & Hsub).
  unfold _parse_components in H.
  destruct (grid_cell_size _) as [[gw gh]|]; [|done].
  cbn [rbind fst snd] in H. apply parse_each_parent in H.
  rewrite Hn, Hd, Hr, Hc, Hs, Hst, Hsub, H. by repeat split.
Qed.

(** X13.  After construction the identities of the components are their
    positions in the declaration, and the main group holds every
    component once, in declaration order. *)
Theorem main_group_order nm bg sz ds disp rws cols par styles i :
  init nm bg sz ds disp rws cols par styles = Ok i ->
  c_obj <$> _components i = seq 0 (length ds) /\
  _group i = c_obj <$> _components i.
Proof.
  intros [(Hobj & Hmain & _) Hlen]%init_well_grouped.
  rewrite Hmain, Hobj, Hlen. done.
Qed.

(** X14.  After construction a type has a group exactly when a component
    is declared with it, and the group holds the components of that
    type, all of them and no other, in declaration order. *)
Theorem type_group_members nm bg sz ds disp rws cols par styles i t :
  init nm bg sz ds disp rws cols par styles = Ok i ->
  (get_type_group t i = None <-> of_type t (_components i) = []) /\
  forall g, get_type_group t i = Some g ->
    g_members g = c_obj <$> of_type t (_components i).
Proof.
  intros [(_ & _ & _ & Htypes) _]%init_well_grouped.
  specialize (Htypes t). unfold get_type_group.
  destruct (of_type t (_components i)) as [|c rest].
  - rewrite Htypes. split; [done|]. intros g Hg. done.
  - destruct Htypes as (g & -> & Hm & _). split; [done|].
    by intros g' [= <-].
Qed.

(** X15.  The class of a type group is decided by the first component
    declared with the type: the group class registered for the type,
    else the one registered for that component's subtype, else the plain
    [ComponentGroup]; later components of the type do not change it. *)
Theorem type_group_class nm bg sz ds disp rws cols par styles i t g :
  init nm bg sz ds disp rws cols par styles = Ok i ->
  get_type_group t i = Some g ->
  exists c, first_with_type t (_components i) = Some c /\ c_type c = t /\
    g_class g =
      match GROUP_CONVERSION_TABLE !! t with
      | Some cls => cls
      | None =>
          match subtype_key (c_subtype c) ≫= (fun k => GROUP_CONVERSION_TABLE !! k) with
          | Some cls => cls
          | None => ComponentGroup
          end
      end.
Proof.
  intros [(_ & _ & _ & Htypes) _]%init_well_grouped Hg.
  specialize (Htypes t). unfold get_type_group in Hg. unfold first_with_type.
  destruct (of_type t (_components i)) as [|c rest] eqn:Hf; [congruence|].
  destruct Htypes as (g' & Hg' & _ & Hcls). rewrite Hg in Hg'.
  injection Hg' as <-. exists c.
  assert (Hc : c_type c = t).
  { assert (c ∈ of_type t (_components i)) as Hin
      by (rewrite Hf; apply elem_of_cons; by left).
    unfold of_type in Hin. by apply list_elem_of_filter in Hin as [? _]. }
  repeat split; [done|]. rewrite Hcls. unfold group_class_for. by rewrite Hc.
Qed.

End Constructed.

Lemma construction_keeps_settings_witness :
  menu_construction = Ok menu_interface /\
  name menu_interface = "menu" /\ size menu_interface = (640, 480) /\
  display menu_interface = "default" /\ rows menu_interface = None /\
  columns menu_interface = None /\ parent menu_interface = None /\
  _style_classes menu_interface = Some example_classes /\
  _subgroups menu_interface = [] /\
  length (_components menu_interface) = length menu_components.
Proof.
  split; [exact menu_constructed|].
  exact (construction_keeps_settings (U := util_model) (CM := conversion_model)
           (P := pygame_model) "menu" (VStr "black") (640, 480)
           menu_components "default" None None None (Some example_classes)
           menu_interface menu_constructed).
Defined.

Lemma main_group_order_witness :
  menu_construction = Ok menu_interface /\
  c_obj <$> _components menu_interface = seq 0 (length menu_components) /\
  _group menu_interface = c_obj <$> _components menu_interface.
Proof.
  split; [exact menu_constructed|].
  exact (main_group_order (U := util_model) (CM := conversion_model)
           (P := pygame_model) "menu" (VStr "black") (640, 480)
           menu_components "default" None None None (Some example_classes)
           menu_interface menu_constructed).
Defined.

Lemma type_group_members_witness :
  menu_construction = Ok menu_interface /\
  (get_type_group "text" menu_interface = None <->
   of_type "text" (_components menu_interface) = []) /\
  forall g, get_type_group "text" menu_interface = Some g ->
    g_members g = c_obj <$> of_type "text" (_components menu_interface).
Proof.
  split; [exact menu_constructed|].
  exact (type_group_members (U := util_model) (CM := conversion_model)
           (P := pygame_model) "menu" (VStr "black") (640, 480)
           menu_components "default" None None None (Some example_classes)
           menu_interface "text" menu_constructed).
Defined.

Lemma type_group_class_witness :
  menu_construction = Ok menu_interface /\
  get_type_group "button" menu_interface
    = Some {| g_class := {| gc_clickable := true; gc_hoverable := true;
                            gc_input := false |};
              g_members := [2%nat] |} /\
  exists c, first_with_type "button" (_components menu_interface) = Some c /\
    c_type c = "button" /\
    {| gc_clickable := true; gc_hoverable := true; gc_input := false |} =
      match GROUP_CONVERSION_TABLE (ConversionMapping := conversion_model)
              !! "button" with
      | Some cls => cls
      | None =>
          match subtype_key (c_subtype c) ≫=
                  (fun k => GROUP_CONVERSION_TABLE
                              (ConversionMapping := conversion_model) !! k) with
          | Some cls => cls
          | None => ComponentGroup
          end
      end.
Proof.
  split; [exact menu_constructed|].
  assert (Hg : get_type_group "button" menu_interface
    = Some {| g_class := {| gc_clickable := true; gc_hoverable := true;
                            gc_input := false |};
              g_members := [2%nat] |}) by (vm_compute; reflexivity).
  split; [exact Hg|].
  exact (type_group_class (U := util_model) (CM := conversion_model)
           (P := pygame_model) "menu" (VStr "black") (640, 480)
           menu_components "default" None None None (Some example_classes)
           menu_interface "button" _ menu_constructed Hg).
Defined.

(** * Dispatch to the type groups *)

Lemma omap_capable {X} (capable : GroupClass -> bool) (mk : string -> X)
    (groups : list (string * Group)) :
  omap (fun tg : string * Group =>
          if capable (g_class (snd tg)) then Some (mk (fst tg)) else None)
       groups =
  mk <$> (fst <$> filter (fun tg : string * Group =>
                            capable (g_class (snd tg)) = true) groups).
Proof.
  induction groups as [|tg groups IH]; [done|].
  rewrite filter_cons. cbn [omap list_omap]. fold (@omap list _).
  destruct (capable (g_class (snd tg))) eqn:Hc.
  - destruct (decide (true = true)); [|done]. rewrite !fmap_cons. f_equal.
    exact IH.
  - destruct (decide (false = true)); [done|]. exact IH.
Qed.

Lemma odict_get_elem {V} (k : string) (v : V) (d : list (string * V)) :
  NoDup (fst <$> d) -> odict_get k d = Some v <-> (k, v) ∈ d.
Proof.
  induction d as [|[k0 v0] d IH]; cbn [odict_get].
  - intros _. split; [done|]. by intros H%elem_of_nil.
  - rewrite fmap_cons. cbn [fst]. intros [Hk0 Hd]%NoDup_cons.
    rewrite elem_of_cons. destruct (String.eqb_spec k0 k) as [->|Hne].
    + split; [intros [= ->]; by left|].
      intros [[= ->]|Hin]; [done|].
      exfalso. apply Hk0. apply list_elem_of_fmap. by exists (k, v).
    + rewrite (IH Hd). split; [by right|].
      intros [[= -> ->]|Hin]; done.
Qed.

Lemma capable_types_NoDup capable i :
  NoDup (fst <$> _component_type_groups i) -> NoDup (capable_types capable i).
Proof.
  unfold capable_types. induction (_component_type_groups i) as [|tg l IH].
  - intros _. constructor.
  - rewrite fmap_cons. intros [Htg Hl]%NoDup_cons. rewrite filter_cons.
    destruct (decide (capable (g_class (snd tg)) = true)); [|by apply IH].
    rewrite fmap_cons. apply NoDup_cons. split; [|by apply IH].
    intros (tg' & Hfst & Hin)%list_elem_of_fmap. apply Htg.
    apply list_elem_of_filter in Hin as [_ Hin].
    apply list_elem_of_fmap. by exists tg'.
Qed.

Lemma capable_types_elem capable i t :
  NoDup (fst <$> _component_type_groups i) ->
  t ∈ capable_types capable i <->
  exists g, get_type_group t i = Some g /\ capable (g_class g) = true.
Proof.
  intros Hkeys. unfold capable_types, get_type_group. split.
  - intros ([t' g] & Hfst & Hin)%list_elem_of_fmap. cbn in Hfst. subst t'.
    apply list_elem_of_filter in Hin as [Hcap Hin]. exists g.
    split; [by apply odict_get_elem|done].
  - intros (g & Hg & Hcap). apply list_elem_of_fmap. exists (t, g).
    split; [done|]. apply list_elem_of_filter. split; [done|].
    by apply odict_get_elem.
Qed.

Section DispatchFacts.
Context {D : Dispatchers}.

(** The loop logs a prefix of its calls, all of them when it returns. *)
Lemma dispatch_each_runs select groups log :
  exists made : list dispatch,
    made `prefix_of` omap select groups /\
    fst (dispatch_each select groups log) = log ++ made /\
    (snd (dispatch_each select groups log) = Ok tt ->
     made = omap select groups).
Proof.
  revert log. induction groups as [|tg groups IH]; intros log.
  - exists []. cbn. by rewrite app_nil_r.
  - cbn [dispatch_each omap list_omap]. fold (@omap list _).
    destruct (select tg) as [d|]; [|apply IH].
    destruct (refuses log d).
    + exists [d]. cbn. split; [by apply prefix_cons, prefix_nil|done].
    + destruct (IH (log ++ [d])) as (made & Hp & Hl & Hr).
      exists (d :: made). split; [by apply prefix_cons|]. split.
      * rewrite Hl. by rewrite <- app_assoc.
      * intros H. f_equal. by apply Hr.
Qed.

Lemma dispatch_each_willing select groups log :
  (forall l d, refuses l d = false) ->
  dispatch_each select groups log = (log ++ omap select groups, Ok tt).
Proof.
  intros Hw. revert log. induction groups as [|tg groups IH]; intros log.
  - cbn. by rewrite app_nil_r.
  - cbn [dispatch_each omap list_omap]. fold (@omap list _).
    destruct (select tg) as [d|]; [|apply IH].
    rewrite Hw, IH. by rewrite <- app_assoc.
Qed.

End DispatchFacts.

Section Dispatching.
Context {U : Util} {CM : ConversionMapping} {P : Pygame} {D : Dispatchers}.

(** X16.  [emit_click] (and [emit_input]) calls [handle_click]
    ([handle_input]) on the type groups of a clickable (input) class and
    on no other, each group once, in the order the types were first
    declared, handing over the name of this interface alone.  When a
    group raises, the calls before it have been made and no later one is;
    when none raises all are made. *)
Theorem click_and_input_dispatch nm bg sz ds disp rws cols par styles i :
  init nm bg sz ds disp rws cols par styles = Ok i ->
  (forall mpos log,
     exists made,
       made `prefix_of` click_calls i mpos /\
       fst (emit_click mpos i log) = log ++ made /\
       (snd (emit_click mpos i log) = Ok tt -> made = click_calls i mpos) /\
       ((forall l d, refuses l d = false) ->
        emit_click mpos i log = (log ++ click_calls i mpos, Ok tt))) /\
  (forall event log,
     exists made,
       made `prefix_of` input_calls i event /\
       fst (emit_input event i log) = log ++ made /\
       (snd (emit_input event i log) = Ok tt -> made = input_calls i event) /\
       ((forall l d, refuses l d = false) ->
        emit_input event i log = (log ++ input_calls i event, Ok tt))) /\
  (forall capable,
     NoDup (capable_types capable i) /\
     forall t, t ∈ capable_types capable i <->
       exists g, get_type_group t i = Some g /\ capable (g_class g) = true).
Proof.
  intros [(_ & _ & Hkeys & _) _]%init_well_grouped.
  split; [|split].
  - intros mpos log. unfold emit_click, click_calls, capable_types.
    rewrite <- (omap_capable gc_clickable (fun t => HandleClick t mpos [name i])).
    destruct (dispatch_each_runs
                (fun tg : string * Group =>
                   if gc_clickable (g_class (snd tg))
                   then Some (HandleClick (fst tg) mpos [name i]) else None)
                (_component_type_groups i) log) as (made & Hp & Hl & Hr).
    exists made. repeat split; try done.
    intros Hw. by apply dispatch_each_willing.
  - intros event log. unfold emit_input, input_calls, capable_types.
    rewrite <- (omap_capable gc_input (fun t => HandleInput t event [name i])).
    destruct (dispatch_each_runs
                (fun tg : string * Group =>
                   if gc_input (g_class (snd tg))
                   then Some (HandleInput (fst tg) event [name i]) else None)
                (_component_type_groups i) log) as (made & Hp & Hl & Hr).
    exists made. repeat split; try done.
    intros Hw. by apply dispatch_each_willing.
  - intros capable. split; [by apply capable_types_NoDup|].
    intros t. by apply capable_types_elem.
Qed.

End Dispatching.

Section Hovering.
Context {U : Util} {CM : ConversionMapping} {P : Pygame} {C : Collaborators}.

Lemma hover_events_calls i : hover_events i = hover_calls i.
Proof.
  unfold hover_events, hover_calls, capable_types.
  apply (omap_capable gc_hoverable (fun t => HandleHover t [name i])).
Qed.

(** X17.  [handle_hover] calls [handle_hover] on the type groups of a
    hoverable class and on no other, each once, in the order the types
    were first declared, with the name of this interface alone; a group
    that raises stops the loop. *)
Theorem hover_dispatch nm bg sz ds disp rws cols par styles i :
  init nm bg sz ds disp rws cols par styles = Ok i ->
  NoDup (hover_calls i) /\
  (forall ev, ev ∈ hover_calls i <->
     exists t g, ev = HandleHover t [name i] /\
                 get_type_group t i = Some g /\
                 gc_hoverable (g_class g) = true) /\
  forall log,
    exists made,
      made `prefix_of` hover_calls i /\
      fst (handle_hover i log) = log ++ made /\
      (snd (handle_hover i log) = Ok tt -> made = hover_calls i).
Proof.
  intros [(_ & _ & Hkeys & _) _]%init_well_grouped.
  split; [|split].
  - unfold hover_calls. apply NoDup_fmap_2; [|by apply capable_types_NoDup].
    by intros t1 t2 [= ->].
  - intros ev. unfold hover_calls. rewrite list_elem_of_fmap. split.
    + intros (t & -> & Ht). apply capable_types_elem in Ht as (g & Hg & Hc);
        [|done].
      by exists t, g.
    + intros (t & g & -> & Hg & Hc). exists t. split; [done|].
      apply capable_types_elem; [done|]. by exists g.
  - intros log. rewrite handle_hover_script, hover_events_calls.
    apply script_runs.
Qed.

End Hovering.

Lemma click_and_input_dispatch_witness :
  menu_construction = Ok menu_interface /\
  emit_click (D := willing_dispatchers) (3, 4) menu_interface []
    = ([HandleClick "button" (3, 4) ["menu"]], Ok tt) /\
  emit_input (D := willing_dispatchers) 0%nat menu_interface [] = ([], Ok tt).
Proof.
  split; [exact menu_constructed|].
  destruct (click_and_input_dispatch (U := util_model) (CM := conversion_model)
              (P := pygame_model) (D := willing_dispatchers)
              "menu" (VStr "black") (640, 480)
              menu_components "default" None None None (Some example_classes)
              menu_interface menu_constructed) as (Hclick & Hinput & _).
  split.
  - destruct (Hclick (3, 4) []) as (made & _ & _ & _ & Hw).
    rewrite Hw by done. vm_compute. reflexivity.
  - destruct (Hinput 0%nat []) as (made & _ & _ & _ & Hw).
    rewrite Hw by done. vm_compute. reflexivity.
Defined.

Lemma hover_dispatch_witness :
  menu_construction = Ok menu_interface /\
  NoDup (hover_calls menu_interface) /\
  exists made,
    made `prefix_of` hover_calls menu_interface /\
    fst (handle_hover (C := never_raises) menu_interface []) = [] ++ made /\
    (snd (handle_hover (C := never_raises) menu_interface []) = Ok tt ->
     made = hover_calls menu_interface).
Proof.
  split; [exact menu_constructed|].
  destruct (hover_dispatch (U := util_model) (CM := conversion_model)
              (P := pygame_model) (C := never_raises)
              "menu" (VStr "black") (640, 480)
              menu_components "default" None None None (Some example_classes)
              menu_interface menu_constructed) as (Hnd & _ & Hlog).
  split; [exact Hnd|]. exact (Hlog []).
Defined.

(** * Subgroups *)

Lemma script_never_raises (evs log : list event) :
  script (C := never_raises) evs log = (log ++ evs, Ok tt).
Proof.
  revert log. induction evs as [|ev evs IH]; intros log.
  - cbn. by rewrite app_nil_r.
  - rewrite script_cons. cbn [raises never_raises]. rewrite IH.
    by rewrite <- app_assoc.
Qed.

Lemma add_subgroup_subgroups g i :
  _subgroups (add_subgroup g i) =
    if decide (g ∈ _subgroups i) then _subgroups i else _subgroups i ++ [g].
Proof. unfold add_subgroup. by destruct (decide (g ∈ _subgroups i)). Qed.

(** X18.  A subgroup is held once: adding it keeps the subgroups added
    before in their order, adding it again changes nothing, and however
    often it was added a frame updates it once and draws it once. *)
Theorem add_subgroup_once (i : Interface) (g : nat) (surface : nat)
    (dt : float) :
  NoDup (_subgroups i) ->
  let i' := add_subgroup g i in
  NoDup (_subgroups i') /\ g ∈ _subgroups i' /\
  _subgroups i `prefix_of` _subgroups i' /\
  add_subgroup g i' = i' /\
  (exists before after,
     fst (update (C := never_raises) i' dt []) =
       before ++ (SubgroupUpdate g dt :: after) /\
     (SubgroupUpdate g dt ∉ before) /\ (SubgroupUpdate g dt ∉ after)) /\
  (exists before after,
     fst (draw (C := never_raises) i' surface []) =
       before ++ (SubgroupDraw g surface :: after) /\
     (SubgroupDraw g surface ∉ before) /\ (SubgroupDraw g surface ∉ after)).
Proof.
  intros Hnd i'.
  assert (Hsub : _subgroups i' =
            if decide (g ∈ _subgroups i) then _subgroups i
            else _subgroups i ++ [g]) by apply add_subgroup_subgroups.
  assert (Hnd' : NoDup (_subgroups i')).
  { rewrite Hsub. destruct (decide (g ∈ _subgroups i)) as [|Hg]; [done|].
    apply NoDup_app. repeat split; [done| |apply NoDup_singleton].
    intros x Hx Hx'. apply list_elem_of_singleton in Hx'. by subst x. }
  assert (Hin : g ∈ _subgroups i').
  { rewrite Hsub. destruct (decide (g ∈ _subgroups i)); [done|].
    apply elem_of_app. right. by apply list_elem_of_singleton. }
  split; [exact Hnd'|]. split; [exact Hin|]. split; [|split].
  - rewrite Hsub. destruct (decide (g ∈ _subgroups i)); [done|].
    by apply prefix_app_r.
  - unfold add_subgroup at 1. by destruct (decide (g ∈ _subgroups i')).
  - destruct (list_elem_of_split _ _ Hin) as (a & b & Hab).
    rewrite Hab in Hnd'. apply NoDup_app in Hnd' as (_ & Hga & Hb).
    apply NoDup_cons in Hb as [Hgb _].
    assert (Hga' : g ∉ a).
    { intros Ha. apply (Hga g Ha). apply elem_of_cons. by left. }
    split.
    + exists (GroupUpdate dt :: ((fun g0 => SubgroupUpdate g0 dt) <$> a)),
        (((fun g0 => SubgroupUpdate g0 dt) <$> b)
           ++ [BindingsHandle; OverlayUpdate dt]).
      rewrite update_script, script_never_raises. unfold update_events.
      rewrite Hab, fmap_app, fmap_cons. cbn [fst app].
      rewrite <- app_assoc. split; [reflexivity|split].
      * rewrite not_elem_of_cons. split; [done|].
        intros (g0 & [= <-] & Hg0)%list_elem_of_fmap. done.
      * rewrite not_elem_of_app. split.
        -- intros (g0 & [= <-] & Hg0)%list_elem_of_fmap. done.
        -- rewrite !not_elem_of_cons. repeat split; try done.
           apply not_elem_of_nil.
    + exists (background_events i' surface
                ++ UnderlayerRender surface :: GroupDraw surface
                   :: ((fun g0 => SubgroupDraw g0 surface) <$> a)),
        (((fun g0 => SubgroupDraw g0 surface) <$> b)
           ++ [OverlayRender surface]).
      rewrite draw_script, script_never_raises.
      unfold draw_events, group_draw_events.
      rewrite Hab, fmap_app, fmap_cons. cbn [fst app].
      rewrite <- !app_assoc. cbn [app].
      split; [reflexivity|split].
      * rewrite not_elem_of_app. split.
        -- intros [Hbg _]%background_events_layer. discriminate Hbg.
        -- rewrite !not_elem_of_cons. repeat split; try done.
           intros (g0 & [= <-] & Hg0)%list_elem_of_fmap. done.
      * rewrite not_elem_of_app. split.
        -- intros (g0 & [= <-] & Hg0)%list_elem_of_fmap. done.
        -- rewrite not_elem_of_cons. split; [done|]. apply not_elem_of_nil.
Qed.

Lemma add_subgroup_once_witness :
  let i' := add_subgroup 7 (add_subgroup 7 menu_interface) in
  NoDup (_subgroups (add_subgroup 7 menu_interface)) /\
  _subgroups i' = [7%nat] /\
  exists before after,
    fst (draw (C := never_raises) i' 0 []) =
      before ++ (SubgroupDraw 7 0 :: after) /\
    (SubgroupDraw 7 0 ∉ before) /\ (SubgroupDraw 7 0 ∉ after).
Proof.
  assert (Hnd : NoDup (_subgroups (add_subgroup 7 menu_interface))).
  { vm_compute. apply NoDup_singleton. }
  split; [exact Hnd|]. split; [vm_compute; reflexivity|].
  exact (proj2 (proj2 (proj2 (proj2 (proj2
           (add_subgroup_once (add_subgroup 7 menu_interface) 7 0
              (S754_zero false) Hnd)))))).
Defined.

(** * Background images *)

Section BackgroundImage.
Context {U : Util} {CM : ConversionMapping} {P : Pygame}.



End BackgroundImage.



(** * Lookup by item: which component is returned *)

Section GetItemFirst.
Context {E : ComponentEq}.

Lemma list_index_first {A} (eq : A -> bool) (l : list A) (idx : Z) :
  list_index eq l = Ok idx ->
  forall (m : nat) (x : A),
    (m < Z.to_nat idx)%nat -> l !! m = Some x -> eq x = false.
Proof.
  revert idx. induction l as [|y l IH]; intros idx; simpl; [done|].
  destruct (eq y) eqn:Hy.
  - intros [= <-] m x Hm. simpl in Hm. lia.
  - destruct (list_index eq l) as [j|] eqn:Hj; [|done]. simpl.
    intros [= <-] m x Hm Hx. destruct m as [|m]; simpl in Hx.
    + by injection Hx as <-.
    + pose proof (list_index_range _ _ _ Hj) as [Hr _].
      apply (IH j eq_refl m x); [lia|done].
Qed.

Lemma list_index_found {A} (eq : A -> bool) (l : list A) (x : A) :
  x ∈ l -> eq x = true -> exists idx, list_index eq l = Ok idx.
Proof.
  induction l as [|y l IH]; simpl; [by intros H%elem_of_nil|].
  intros Hx Heq. destruct (eq y) eqn:Hy; [by exists 0|].
  apply elem_of_cons in Hx as [->|Hx]; [congruence|].
  destruct (IH Hx Heq) as [j ->]. by exists (1 + j).
Qed.

(** X21.  When some component equals the key, [__getitem__] returns the
    first such component of the list: no component before it equals the
    key.  (The mapping by id, in contrast, keeps the last.) *)
Theorem getitem_first_match (key : pyval) (i : Interface) (c0 : Component) :
  c0 ∈ _components i -> component_eq c0 key = true ->
  exists (n : nat) (c : Component),
    getitem key i = Ok (Some c) /\
    _components i !! n = Some c /\ component_eq c key = true /\
    forall (m : nat) (c' : Component),
      (m < n)%nat -> _components i !! m = Some c' ->
      component_eq c' key = false.
Proof.
  intros Hc0 Heq.
  destruct (list_index_found (fun c => component_eq c key) _ c0 Hc0 Heq)
    as [idx Hidx].
  destruct (list_index_range _ _ _ Hidx) as [Hr (c & Hc & Hceq)].
  exists (Z.to_nat idx), c. unfold getitem. rewrite Hidx. cbn [rbind].
  destruct (Z.eqb_spec idx (-1)); [lia|]. cbn [negb]. rewrite Hc.
  repeat split; try done. by apply list_index_first.
Qed.

End GetItemFirst.

Lemma getitem_first_match_witness :
  exists (n : nat) (c : Component),
    getitem (E := id_equality) (VStr "title") twin_interface = Ok (Some c) /\
    _components twin_interface !! n = Some c /\
    component_eq (ComponentEq := id_equality) c (VStr "title") = true /\
    forall (m : nat) (c' : Component),
      (m < n)%nat -> _components twin_interface !! m = Some c' ->
      component_eq (ComponentEq := id_equality) c' (VStr "title") = false.
Proof.
  assert (exists c0, _components twin_interface !! 1%nat = Some c0 /\
            component_eq (ComponentEq := id_equality) c0 (VStr "title") = true)
    as (c0 & Hc0 & Heq).
  { eexists. split; [vm_compute; reflexivity|]. vm_compute. reflexivity. }
  apply (getitem_first_match (E := id_equality) (VStr "title") twin_interface c0).
  - by eapply list_elem_of_lookup_2.
  - exact Heq.
Defined.

(** Of two components declared with the same id, [__getitem__] finds the
    first and [component_mapping] the second. *)
Example twins_first_and_last :
  (c <- getitem (E := id_equality) (VStr "title") twin_interface ;;
   Ok (c_obj <$> c)) = Ok (Some 0%nat) /\
  c_obj <$> (component_mapping twin_interface !! "title") = Some 1%nat.
Proof. split; vm_compute; reflexivity. Qed.

(** * The resolver passes together *)


Section Passes.
Context {U : Util} {CM : ConversionMapping}.




End Passes.


